(** * Minimum-rotated-rectangle calculator: angle of the long side and dimensions

    Shallow embedding of [python/src/mrr_calculator.py].

    Number model.  The Python code computes on binary64 floats; the data
    model of the specification takes coordinates to be real numbers.  The
    main development follows the specification: coordinates, distances,
    slopes and angles are elements of [R], with [sqrt], [atan] and [PI] from
    the Standard Library, and the value returned by [round] is an integer,
    modelled in [Z].  Two behaviours of binary64 that exact reals do not
    have are modelled beside it: overflow to an infinity and NaN, in a second
    embedding of [get_mrr_angle_of_long_side] on floats that are finite,
    infinite or not a number, and absorption of a small addend, in an
    embedding of the loop of [restrict_0_to_180] on the machine's floats.
    The rounding of finite results stays outside the model.

    Input model.  Both functions start with
    [box = list(polygon.minimum_rotated_rectangle.exterior.coords)], a call
    into the shapely library.  The embedding takes [box], the list of corner
    points, as its argument. *)

From Stdlib Require Import Reals ZArith List Lra Lia.
From Stdlib Require String PrimFloat.
Import String.StringSyntax.
Delimit Scope string_scope with string.
From Equations Require Import Equations.
Import ListNotations.

Open Scope R_scope.

(** ** Errors the Python code can raise on a list of points *)

Inductive exn : Type :=
| IndexError
| ZeroDivisionError
| ValueError
| OverflowError.

Definition result (A : Type) : Type := (exn + A)%type.

Definition ret {A : Type} (a : A) : result A := inr a.

Definition raise {A : Type} (e : exn) : result A := inl e.

Definition bind {A B : Type} (m : result A) (k : A -> result B) : result B :=
  match m with
  | inl e => inl e
  | inr a => k a
  end.

Notation "x <- m ;; k" := (bind m (fun x => k))
  (at level 61, m at next level, right associativity).

(** ** Points and the primitives of [math] and [numpy] the module calls *)

Definition point : Type := (R * R)%type.

(** [box[i]] for a non-negative literal index [i]. *)
Definition getitem (box : list point) (i : nat) : result point :=
  match nth_error box i with
  | Some p => ret p
  | None => raise IndexError
  end.

(** [math.dist(p, q)] on two-dimensional points. *)
Definition dist (p q : point) : R :=
  sqrt ((fst p - fst q) * (fst p - fst q) + (snd p - snd q) * (snd p - snd q)).

(** [a / b] on floats: division by zero raises. *)
Definition py_div (a b : R) : result R :=
  if Req_dec_T b 0 then raise ZeroDivisionError else ret (a / b).

(** [np.rad2deg]. *)
Definition rad2deg (x : R) : R := x * (180 / PI).

(** [round(x)] with one argument: nearest integer, ties to the even one. *)
Definition py_round (x : R) : Z :=
  let f := Zfloor x in
  let r := x - IZR f in
  if Rlt_dec r (1 / 2) then f
  else if Rlt_dec (1 / 2) r then (f + 1)%Z
  else if Z.even f then f else (f + 1)%Z.

(** ** The module *)

Definition VERTICAL_THRESHOLD : R := 1 / 1000.

(** The [while degree < 0: degree += 180] loop of [restrict_0_to_180],
    on the integers that [round] hands to it. *)
Equations? restrict_0_to_180_loop (degree : Z) : Z
  by wf (Z.to_nat (- degree)) lt :=
  restrict_0_to_180_loop degree with Z_lt_dec degree 0 => {
    | left _ := restrict_0_to_180_loop (degree + 180);
    | right _ := degree }.
Proof. lia. Qed.

Definition restrict_0_to_180 (degree : Z) : Z :=
  (restrict_0_to_180_loop degree mod 180)%Z.

(** The same loop on a binary64 float, with the float addition and
    comparison of the machine.  [fuel] bounds the number of times the loop
    test is evaluated; [None] means the loop has not been left by then. *)
Module Binary64.
Import PrimFloat.

Fixpoint restrict_0_to_180_loop (fuel : nat) (degree : float) : option float :=
  match fuel with
  | O => None
  | S fuel =>
      if ltb degree 0%float
      then restrict_0_to_180_loop fuel (add degree 180%float)
      else Some degree
  end.

End Binary64.

Definition get_mrr_angle_of_long_side (box : list point) : result Z :=
  start_pt <- getitem box 0 ;;
  p1 <- getitem box 1 ;;
  let len_side_1 := dist start_pt p1 in
  p3 <- getitem box 3 ;;
  let len_side_2 := dist start_pt p3 in
  end_pt <- (if Rge_dec len_side_1 len_side_2
             then getitem box 1 else getitem box 3) ;;
  let x_dist := fst start_pt - fst end_pt in
  let y_dist := snd start_pt - snd end_pt in
  if Rle_dec (Rabs x_dist) VERTICAL_THRESHOLD then ret 90%Z
  else
    slope <- py_div y_dist x_dist ;;
    let angle_rad := atan slope in
    let angle_deg := rad2deg angle_rad in
    let angle := py_round angle_deg in
    let angle := restrict_0_to_180 angle in
    ret angle.

Definition get_mrr_dims (box : list point) : result (R * R) :=
  start_pt <- getitem box 0 ;;
  p1 <- getitem box 1 ;;
  let len_side_1 := dist start_pt p1 in
  p3 <- getitem box 3 ;;
  let len_side_2 := dist start_pt p3 in
  if Rge_dec len_side_1 len_side_2
  then ret (len_side_1, len_side_2)
  else ret (len_side_2, len_side_1).

(** ** The angle function with the overflow of binary64

    A float is finite, infinite or not a number.  The operations below keep
    the exact real result when its magnitude is below the overflow threshold
    of binary64 and give an infinity otherwise, with the rules of IEEE 754
    for infinities and NaN; the rounding of finite results stays outside the
    model.  The coordinates of the corners are finite. *)

Inductive xfloat : Type :=
| Finite (r : R)
| Inf (negative : bool)
| NaN.

(** The least magnitude that rounds to an infinity: [2^1024 - 2^970]. *)
Definition OVERFLOW : R := IZR (2 ^ 1024 - 2 ^ 970).

(** The float for an operation whose exact result is [r]. *)
Definition to_xfloat (r : R) : xfloat :=
  if Rle_dec OVERFLOW (Rabs r)
  then Inf (if Rlt_dec r 0 then true else false)
  else Finite r.

(** [a - b] on two finite floats. *)
Definition x_sub (a b : R) : xfloat := to_xfloat (a - b).

(** [abs]. *)
Definition x_abs (a : xfloat) : xfloat :=
  match a with
  | Finite r => Finite (Rabs r)
  | Inf _ => Inf false
  | NaN => NaN
  end.

(** [a <= b]; every comparison with NaN is false. *)
Definition x_le (a b : xfloat) : bool :=
  match a, b with
  | NaN, _ | _, NaN => false
  | Finite x, Finite y => if Rle_dec x y then true else false
  | Inf true, _ => true
  | _, Inf false => true
  | Inf false, _ => false
  | Finite _, Inf true => false
  end.

(** [a >= b]. *)
Definition x_ge (a b : xfloat) : bool := x_le b a.

(** [math.dist(p, q)]: an infinite difference gives [inf]; the norm of
    finite differences is computed without intermediate overflow. *)
Definition x_math_dist (p q : point) : xfloat :=
  match x_sub (fst p) (fst q), x_sub (snd p) (snd q) with
  | Inf _, _ | _, Inf _ => Inf false
  | NaN, _ | _, NaN => NaN
  | Finite dx, Finite dy => to_xfloat (sqrt (dx * dx + dy * dy))
  end.

(** [a / b] on floats: a zero divisor raises whatever the dividend is. *)
Definition x_div (a b : xfloat) : result xfloat :=
  match b with
  | Finite y =>
      if Req_dec_T y 0 then raise ZeroDivisionError
      else match a with
           | Finite x => ret (to_xfloat (x / y))
           | Inf s => ret (Inf (xorb s (if Rlt_dec y 0 then true else false)))
           | NaN => ret NaN
           end
  | Inf _ =>
      match a with
      | Finite _ => ret (Finite 0)
      | _ => ret NaN
      end
  | NaN => ret NaN
  end.

(** [math.atan]. *)
Definition x_atan (a : xfloat) : xfloat :=
  match a with
  | Finite r => Finite (atan r)
  | Inf s => Finite (if s then - (PI / 2) else PI / 2)
  | NaN => NaN
  end.

(** [np.rad2deg]. *)
Definition x_rad2deg (a : xfloat) : xfloat :=
  match a with
  | Finite r => to_xfloat (rad2deg r)
  | Inf s => Inf s
  | NaN => NaN
  end.

(** [round(a)]: an infinity raises [OverflowError], NaN raises
    [ValueError]. *)
Definition x_round (a : xfloat) : result Z :=
  match a with
  | Finite r => ret (py_round r)
  | Inf _ => raise OverflowError
  | NaN => raise ValueError
  end.

(** [get_mrr_angle_of_long_side], line by line as above, on these floats. *)
Definition get_mrr_angle_of_long_side_x (box : list point) : result Z :=
  start_pt <- getitem box 0 ;;
  p1 <- getitem box 1 ;;
  let len_side_1 := x_math_dist start_pt p1 in
  p3 <- getitem box 3 ;;
  let len_side_2 := x_math_dist start_pt p3 in
  end_pt <- (if x_ge len_side_1 len_side_2
             then getitem box 1 else getitem box 3) ;;
  let x_dist := x_sub (fst start_pt) (fst end_pt) in
  let y_dist := x_sub (snd start_pt) (snd end_pt) in
  if x_le (x_abs x_dist) (Finite VERTICAL_THRESHOLD) then ret 90%Z
  else
    slope <- x_div y_dist x_dist ;;
    let angle_rad := x_atan slope in
    let angle_deg := x_rad2deg angle_rad in
    angle <- x_round angle_deg ;;
    let angle := restrict_0_to_180 angle in
    ret angle.

(** The endpoint this function selects. *)
Definition long_side_end_x (c0 c1 c3 : point) : point :=
  if x_ge (x_math_dist c0 c1) (x_math_dist c0 c3) then c1 else c3.

(** The rest of that function, from the displacement on. *)
Definition angle_of_segment_x (start_pt end_pt : point) : result Z :=
  let x_dist := x_sub (fst start_pt) (fst end_pt) in
  let y_dist := x_sub (snd start_pt) (snd end_pt) in
  if x_le (x_abs x_dist) (Finite VERTICAL_THRESHOLD) then ret 90%Z
  else
    slope <- x_div y_dist x_dist ;;
    angle <- x_round (x_rad2deg (x_atan slope)) ;;
    ret (restrict_0_to_180 angle).

(** Coordinates of magnitude up to 1e300 are far from any overflow. *)
Definition SAFE : R := IZR (10 ^ 300).

Definition small (p : point) : Prop :=
  Rabs (fst p) <= SAFE /\ Rabs (snd p) <= SAFE.

(** A rectangle with distinct corners whose long side overflows: the corners
    (-1e308, -1e308), (1e308, 1e308), (1e308 - 1e300, 1e308 + 1e300) and
    (-1e308 - 1e300, -1e308 + 1e300). *)
Definition overflow_box : list point :=
  [(IZR (- 10 ^ 308), IZR (- 10 ^ 308));
   (IZR (10 ^ 308), IZR (10 ^ 308));
   (IZR (10 ^ 308 - 10 ^ 300), IZR (10 ^ 308 + 10 ^ 300));
   (IZR (- 10 ^ 308 - 10 ^ 300), IZR (- 10 ^ 308 + 10 ^ 300))].

(** ** Descriptions used in the statements *)

(** The endpoint of the side taken as the long one: corner 1 when the side
    from corner 0 to corner 1 is at least as long as the side from corner 0
    to corner 3, corner 3 otherwise. *)
Definition long_side_end (c0 c1 c3 : point) : point :=
  if Rge_dec (dist c0 c1) (dist c0 c3) then c1 else c3.

(** The angle of the segment from [start_pt] to [end_pt]: 90 for a segment
    within the vertical threshold, the folded rounded arc tangent of the
    slope otherwise. *)
Definition angle_of_segment (start_pt end_pt : point) : Z :=
  let dx := fst start_pt - fst end_pt in
  let dy := snd start_pt - snd end_pt in
  if Rle_dec (Rabs dx) VERTICAL_THRESHOLD then 90%Z
  else restrict_0_to_180 (py_round (rad2deg (atan (dy / dx)))).

(** Rotation by 180 degrees about [c], and translation by [t]. *)
Definition rotate180 (c p : point) : point :=
  (2 * fst c - fst p, 2 * snd c - snd p).

Definition translate (t p : point) : point :=
  (fst p + fst t, snd p + snd t).

(** Rotation about the origin by [theta] degrees, counter-clockwise. *)
Definition rotate_deg (theta : R) (p : point) : point :=
  let a := theta * (PI / 180) in
  (fst p * cos a - snd p * sin a, fst p * sin a + snd p * cos a).

(** [base_item_points] of the test module: an item 8 long and 2 tall. *)
Definition base_item_points : list point :=
  [(-4, 1); (4, 1); (4, -1); (-4, -1)].

(** ** The transformations and helpers of [python/tests/test_mrr_calculator.py]

    [generate_shape] builds its shapes with [shapely.affinity.rotate],
    [scale] and [translate]; on the corner points these are the maps
    [rotate_deg], [scale] and [translate]. *)

(** [shapely.affinity.scale(shape, xfact, yfact, origin)] on one point. *)
Definition scale (xfact yfact : R) (origin p : point) : point :=
  (fst origin + xfact * (fst p - fst origin),
   snd origin + yfact * (snd p - snd origin)).

(** Reflection in the x axis. *)
Definition mirror_x (p : point) : point := (fst p, - snd p).

(** The corners of an axis-parallel rectangle centred at the origin, of
    length [2 * a] along x and width [2 * b] along y, in the order of
    [base_item_points]. *)
Definition rectangle (a b : R) : list point :=
  [(- a, b); (a, b); (a, - b); (- a, - b)].

(** The bookkeeping fields of [TestBoundingBox] that [setUp] resets and
    [check_rotation] and [check_test] use. *)
Record TestBoundingBox : Type := mkTest {
  pass_angles : list Z;
  fail_angles : list Z
}.

Definition setUp : TestBoundingBox :=
  {| pass_angles := []; fail_angles := [] |}.

(** [check_rotation]: the expected angle is appended to the pass list when
    the two angles are equal and to the fail list otherwise. *)
Definition check_rotation (exp_rotation act_rotation : Z)
    (self : TestBoundingBox) : TestBoundingBox :=
  if Z.eqb exp_rotation act_rotation
  then {| pass_angles := pass_angles self ++ [exp_rotation];
          fail_angles := fail_angles self |}
  else {| pass_angles := pass_angles self;
          fail_angles := fail_angles self ++ [exp_rotation] |}.

(** Outcome of a [unittest] assertion. *)
Inductive assertion : Type :=
| AssertionOk
| AssertionError.

(** [check_test]: [assertEqual(len(self.pass_angles), exp_pass_count)]. *)
Definition check_test (exp_pass_count : nat) (self : TestBoundingBox)
    : assertion :=
  if Nat.eqb (length (pass_angles self)) exp_pass_count
  then AssertionOk else AssertionError.

(** The loop body shared by [test_hardcoded] and [test_random], after the
    calculator has been called: one [check_rotation] per pair of expected and
    computed angle, in order. *)
Definition check_rotations (runs : list (Z * Z)) (self : TestBoundingBox)
    : TestBoundingBox :=
  fold_left (fun st r => check_rotation (fst r) (snd r) st) runs self.

(** A run whose computed angle equals the expected one. *)
Definition matched (r : Z * Z) : bool := Z.eqb (fst r) (snd r).

(** What [draw_angle_line] hands to matplotlib. *)
Inductive draw_cmd : Type :=
| Plot (xs ys : R * R) (color : String.string)
| Text (x y : R) (s : String.string) (color : String.string).

(** [math.radians]. *)
Definition radians (x : R) : R := x * (PI / 180).

(** [draw_angle_line]: a segment from [pt] at [angle] degrees with the given
    [length], and the label, if there is a non-empty one, half the length
    away on the other side of [pt]. *)
Definition draw_angle_line (pt : point) (angle length : R)
    (color : String.string) (text : option String.string) : list draw_cmd :=
  let x := fst pt in
  let y := snd pt in
  let end_x := x + length * cos (radians angle) in
  let end_y := y + length * sin (radians angle) in
  Plot (x, end_x) (y, end_y) color ::
  match text with
  | Some (String.String c s) =>
      let text_x := x - length / 2 * cos (radians angle) in
      let text_y := y - length / 2 * sin (radians angle) in
      [Text text_x text_y (String.String c s) "black"%string]
  | _ => []
  end.

(** The end of the segment that [draw_angle_line] plots. *)
Definition line_end (pt : point) (angle length : R) : point :=
  (fst pt + length * cos (radians angle), snd pt + length * sin (radians angle)).

(** The placement of a shape in [generate_shape].  Shapes and the shapely
    operations on them are parameters, as is the sequence of random offsets:
    [offsets n] is the pair drawn in the [n]-th pass of the loop. *)
Section Placement.

Variable Shape : Type.
Variable intersects : Shape -> Shape -> bool.
Variable translate_shape : Shape -> Z -> Z -> Shape.
Variable offsets : nat -> Z * Z.

(** [check_shape_overlap]: true at the first stored shape that the new one
    intersects. *)
Fixpoint check_shape_overlap (shapes : list Shape) (shape : Shape) : bool :=
  match shapes with
  | [] => false
  | test_shape :: rest =>
      if intersects shape test_shape then true
      else check_shape_overlap rest shape
  end.

(** The [while shape_hit] loop, from the state [(shape, shape_hit,
    try_count)]; it returns the final shape and the final [try_count]. *)
Equations? place_loop (shapes : list Shape) (shape : Shape)
    (shape_hit : bool) (try_count : nat) : Shape * nat
  by wf (5 - try_count)%nat lt :=
  place_loop shapes shape false try_count := (shape, try_count);
  place_loop shapes shape true try_count
    with le_lt_dec 5 (S try_count) => {
    | left _ :=
        (translate_shape shape (fst (offsets (S try_count)))
                               (snd (offsets (S try_count))),
         S try_count);
    | right _ :=
        place_loop shapes
          (translate_shape shape (fst (offsets (S try_count)))
                                 (snd (offsets (S try_count))))
          (check_shape_overlap shapes
             (translate_shape shape (fst (offsets (S try_count)))
                                    (snd (offsets (S try_count)))))
          (S try_count) }.
Proof. destruct try_count as [|[|[|[|[|n]]]]]; lia. Qed.

(** The end of [generate_shape]: place [shape], store it in [self.shapes],
    return the stored shapes and the placed shape. *)
Definition place_shape (shapes : list Shape) (shape : Shape)
    : list Shape * Shape :=
  let shape_hit := check_shape_overlap shapes shape in
  let placed := fst (place_loop shapes shape shape_hit 0) in
  (shapes ++ [placed], placed).

End Placement.

(** ** The loop of [restrict_0_to_180] *)

Lemma restrict_0_to_180_loop_iter (d : Z) :
  exists n : nat,
    restrict_0_to_180_loop d = (d + 180 * Z.of_nat n)%Z /\
    (0 <= restrict_0_to_180_loop d)%Z /\
    (forall k : nat, (k < n)%nat -> (d + 180 * Z.of_nat k < 0)%Z).
Proof.
  funelim (restrict_0_to_180_loop d).
  - destruct H as (n & Hn & Hpos & Hneg). exists (S n).
    split; [rewrite Hn; lia|]. split; [exact Hpos|].
    intros [|k] Hk; [lia|]. specialize (Hneg k ltac:(lia)). lia.
  - exists 0%nat. repeat split; lia.
Qed.

Lemma restrict_0_to_180_mod (d : Z) :
  restrict_0_to_180 d = (d mod 180)%Z.
Proof.
  unfold restrict_0_to_180.
  destruct (restrict_0_to_180_loop_iter d) as (n & Heq & _).
  rewrite Heq, Z.mul_comm, Z_mod_plus_full. reflexivity.
Qed.

Lemma restrict_0_to_180_range (d : Z) :
  (0 <= restrict_0_to_180 d < 180)%Z.
Proof. rewrite restrict_0_to_180_mod. apply Z.mod_pos_bound. lia. Qed.

(** ** Basic facts about the primitives *)

Lemma dist_nonneg (p q : point) : 0 <= dist p q.
Proof. unfold dist. apply sqrt_pos. Qed.

Lemma dist_eq (p q : point) (d : R) :
  0 <= d ->
  d * d = (fst p - fst q) * (fst p - fst q) + (snd p - snd q) * (snd p - snd q) ->
  dist p q = d.
Proof.
  intros Hd Hsq. unfold dist. apply sqrt_lem_1; [nra | exact Hd | exact Hsq].
Qed.

Lemma py_div_nonzero (a b : R) : b <> 0 -> py_div a b = ret (a / b).
Proof.
  intros Hb. unfold py_div. destruct (Req_dec_T b 0) as [E|_]; [contradiction|].
  reflexivity.
Qed.

Lemma above_threshold_nonzero (dx : R) :
  ~ Rabs dx <= VERTICAL_THRESHOLD -> dx <> 0.
Proof.
  intros Hn E. apply Hn. rewrite E, Rabs_R0. unfold VERTICAL_THRESHOLD. lra.
Qed.

Lemma rad2deg_atan_bound (s : R) : -90 < rad2deg (atan s) < 90.
Proof.
  pose proof (atan_bound s) as [Hlo Hhi]. pose proof PI_RGT_0 as Hpi.
  unfold rad2deg.
  assert (Hk : 0 < 180 / PI) by (apply Rdiv_lt_0_compat; lra).
  assert (E : 90 = PI / 2 * (180 / PI)) by (field; lra).
  split.
  - replace (-90) with (- (PI / 2) * (180 / PI)) by (field; lra).
    apply Rmult_lt_compat_r; [assumption | lra].
  - rewrite E. apply Rmult_lt_compat_r; [assumption | lra].
Qed.

Lemma py_round_IZR (z : Z) : py_round (IZR z) = z.
Proof.
  unfold py_round. rewrite ZfloorZ.
  destruct (Rlt_dec (IZR z - IZR z) (1 / 2)) as [_|Hn]; [reflexivity|].
  exfalso. apply Hn. lra.
Qed.

(** ** The angle function, factored through the selected endpoint *)

Lemma get_mrr_angle_of_long_side_factor (c0 c1 c2 c3 : point) (tl : list point) :
  get_mrr_angle_of_long_side (c0 :: c1 :: c2 :: c3 :: tl)
  = ret (angle_of_segment c0 (long_side_end c0 c1 c3)).
Proof.
  unfold get_mrr_angle_of_long_side, long_side_end, angle_of_segment, getitem.
  cbn [nth_error bind ret].
  destruct (Rge_dec (dist c0 c1) (dist c0 c3)) as [Hge|Hlt]; cbn [bind ret];
    match goal with
    | |- context [Rle_dec (Rabs ?dx) VERTICAL_THRESHOLD] =>
        destruct (Rle_dec (Rabs dx) VERTICAL_THRESHOLD) as [Hv|Hs];
        [reflexivity
        | rewrite (py_div_nonzero _ dx (above_threshold_nonzero dx Hs));
          reflexivity]
    end.
Qed.

Lemma get_mrr_dims_factor (c0 c1 c2 c3 : point) (tl : list point) :
  get_mrr_dims (c0 :: c1 :: c2 :: c3 :: tl)
  = ret (Rmax (dist c0 c1) (dist c0 c3), Rmin (dist c0 c1) (dist c0 c3)).
Proof.
  unfold get_mrr_dims, getitem. cbn [nth_error bind ret].
  destruct (Rge_dec (dist c0 c1) (dist c0 c3)) as [Hge|Hlt].
  - rewrite Rmax_left, Rmin_right by lra. reflexivity.
  - rewrite Rmax_right, Rmin_left by lra. reflexivity.
Qed.

Lemma angle_of_segment_range (p q : point) :
  (0 <= angle_of_segment p q < 180)%Z.
Proof.
  unfold angle_of_segment.
  destruct (Rle_dec _ _); [lia | apply restrict_0_to_180_range].
Qed.

(** ** Concrete rectangles used as inputs *)

(** Solves [dist p q = d] on literal points. *)
Ltac dist_literal :=
  match goal with
  | |- dist _ _ = ?d => apply (dist_eq _ _ d); cbn [fst snd]; lra
  end.

(** Solves linear goals about [Rabs] of literal expressions. *)
Ltac rabs_literal :=
  cbn [fst snd]; unfold VERTICAL_THRESHOLD, Rabs;
  repeat match goal with |- context [Rcase_abs ?x] => destruct (Rcase_abs x) end;
  lra.

Lemma long_side_end_first (c0 c1 c3 : point) :
  dist c0 c1 >= dist c0 c3 -> long_side_end c0 c1 c3 = c1.
Proof.
  intros H. unfold long_side_end.
  destruct (Rge_dec (dist c0 c1) (dist c0 c3)); [reflexivity | contradiction].
Qed.

Lemma long_side_end_third (c0 c1 c3 : point) :
  dist c0 c1 < dist c0 c3 -> long_side_end c0 c1 c3 = c3.
Proof.
  intros H. unfold long_side_end.
  destruct (Rge_dec (dist c0 c1) (dist c0 c3)); [lra | reflexivity].
Qed.

Lemma angle_of_segment_horizontal (p q : point) :
  ~ Rabs (fst p - fst q) <= VERTICAL_THRESHOLD ->
  snd p = snd q ->
  angle_of_segment p q = 0%Z.
Proof.
  intros Hs Hy. unfold angle_of_segment.
  destruct (Rle_dec _ _) as [Hv|_]; [contradiction|].
  replace ((snd p - snd q) / (fst p - fst q)) with 0
    by (rewrite Hy; unfold Rdiv; ring).
  rewrite atan_0. unfold rad2deg. rewrite Rmult_0_l.
  rewrite (py_round_IZR 0), restrict_0_to_180_mod. reflexivity.
Qed.

Lemma angle_of_segment_vertical (p q : point) :
  Rabs (fst p - fst q) <= VERTICAL_THRESHOLD ->
  angle_of_segment p q = 90%Z.
Proof.
  intros Hv. unfold angle_of_segment.
  destruct (Rle_dec _ _) as [_|Hs]; [reflexivity | contradiction].
Qed.

(** ** C1: the angle lies in [0, 180) unless the displacement overflows *)

Lemma OVERFLOW_above_SAFE : 2000 * SAFE < OVERFLOW.
Proof.
  unfold SAFE, OVERFLOW. rewrite <- mult_IZR. apply IZR_lt. reflexivity.
Qed.

Lemma SAFE_large : 1000 <= SAFE.
Proof. unfold SAFE. apply IZR_le. vm_compute. discriminate. Qed.

Lemma to_xfloat_finite (r : R) : Rabs r < OVERFLOW -> to_xfloat r = Finite r.
Proof.
  intros H. unfold to_xfloat.
  destruct (Rle_dec OVERFLOW (Rabs r)); [lra | reflexivity].
Qed.

Lemma to_xfloat_inf (r : R) :
  OVERFLOW <= Rabs r -> exists s : bool, to_xfloat r = Inf s.
Proof.
  intros H. unfold to_xfloat.
  destruct (Rle_dec OVERFLOW (Rabs r)); [eexists; reflexivity | contradiction].
Qed.

Lemma to_xfloat_degrees (r : R) :
  to_xfloat (rad2deg (atan r)) = Finite (rad2deg (atan r)).
Proof.
  apply to_xfloat_finite. pose proof (rad2deg_atan_bound r) as [Hlo Hhi].
  pose proof OVERFLOW_above_SAFE. pose proof SAFE_large.
  unfold Rabs. destruct (Rcase_abs _); lra.
Qed.

Lemma to_xfloat_right_angle (s : bool) :
  to_xfloat (rad2deg (if s then - (PI / 2) else PI / 2))
  = Finite (if s then -90 else 90).
Proof.
  pose proof PI_RGT_0 as Hpi.
  assert (E : rad2deg (if s then - (PI / 2) else PI / 2)
              = if s then -90 else 90).
  { unfold rad2deg. destruct s; field; lra. }
  rewrite E. apply to_xfloat_finite.
  pose proof OVERFLOW_above_SAFE. pose proof SAFE_large.
  unfold Rabs. destruct s; destruct (Rcase_abs _); lra.
Qed.

Lemma x_math_dist_not_nan (p q : point) : x_math_dist p q <> NaN.
Proof.
  unfold x_math_dist, x_sub, to_xfloat.
  repeat match goal with
         | |- context [Rle_dec ?a ?b] => destruct (Rle_dec a b)
         end; discriminate.
Qed.

Lemma get_mrr_angle_of_long_side_x_factor (c0 c1 c2 c3 : point)
    (tl : list point) :
  get_mrr_angle_of_long_side_x (c0 :: c1 :: c2 :: c3 :: tl)
  = angle_of_segment_x c0 (long_side_end_x c0 c1 c3).
Proof.
  unfold get_mrr_angle_of_long_side_x, long_side_end_x, angle_of_segment_x,
    getitem.
  cbn [nth_error bind ret].
  destruct (x_ge (x_math_dist c0 c1) (x_math_dist c0 c3)); reflexivity.
Qed.

(** The outcomes of the part after the selection of the endpoint. *)
Lemma angle_of_segment_x_cases (p q : point) :
  (Rabs (fst p - fst q) < OVERFLOW \/ Rabs (snd p - snd q) < OVERFLOW ->
   exists a : Z, angle_of_segment_x p q = inr a /\ (0 <= a < 180)%Z) /\
  (OVERFLOW <= Rabs (fst p - fst q) /\ OVERFLOW <= Rabs (snd p - snd q) ->
   angle_of_segment_x p q = inl ValueError).
Proof.
  assert (Hthr : VERTICAL_THRESHOLD < OVERFLOW).
  { pose proof OVERFLOW_above_SAFE. pose proof SAFE_large.
    unfold VERTICAL_THRESHOLD. lra. }
  assert (Hround : forall s : bool,
             exists a : Z,
               (angle <- x_round (x_rad2deg (x_atan (Inf s))) ;;
                ret (restrict_0_to_180 angle)) = inr a /\ (0 <= a < 180)%Z).
  { intros s. cbn [x_atan x_rad2deg]. rewrite to_xfloat_right_angle.
    cbn [x_round bind ret]. eexists. split; [reflexivity|].
    apply restrict_0_to_180_range. }
  unfold angle_of_segment_x, x_sub.
  set (dx := fst p - fst q). set (dy := snd p - snd q).
  destruct (Rlt_dec (Rabs dx) OVERFLOW) as [Hx|Hx].
  - (* the x displacement is finite *)
    split; [intros _ | intros [Hx' _]; lra].
    rewrite (to_xfloat_finite dx Hx). cbn [x_abs x_le].
    destruct (Rle_dec (Rabs dx) VERTICAL_THRESHOLD) as [Hv|Hs].
    { exists 90%Z. split; [reflexivity | lia]. }
    apply above_threshold_nonzero in Hs.
    destruct (Rlt_dec (Rabs dy) OVERFLOW) as [Hy|Hy].
    + rewrite (to_xfloat_finite dy Hy). cbn [x_div].
      destruct (Req_dec_T dx 0) as [E|_]; [contradiction|]. cbn [bind ret].
      destruct (Rlt_dec (Rabs (dy / dx)) OVERFLOW) as [Hq|Hq].
      * rewrite (to_xfloat_finite _ Hq). cbn [x_atan x_rad2deg].
        rewrite to_xfloat_degrees. cbn [x_round bind ret].
        eexists. split; [reflexivity | apply restrict_0_to_180_range].
      * apply Rnot_lt_le in Hq. destruct (to_xfloat_inf _ Hq) as [s Es].
        rewrite Es. apply Hround.
    + apply Rnot_lt_le in Hy. destruct (to_xfloat_inf _ Hy) as [s Es].
      rewrite Es. cbn [x_div].
      destruct (Req_dec_T dx 0) as [E|_]; [contradiction|]. cbn [bind ret].
      apply Hround.
  - (* the x displacement overflows *)
    apply Rnot_lt_le in Hx. destruct (to_xfloat_inf _ Hx) as [sx Ex].
    rewrite Ex. cbn [x_abs x_le].
    destruct (Rlt_dec (Rabs dy) OVERFLOW) as [Hy|Hy].
    + split; [intros _ | intros [_ Hy']; lra].
      rewrite (to_xfloat_finite dy Hy). cbn [x_div bind ret x_atan x_rad2deg].
      rewrite atan_0. unfold rad2deg. rewrite Rmult_0_l.
      rewrite to_xfloat_finite
        by (rewrite Rabs_R0; unfold VERTICAL_THRESHOLD in Hthr; lra).
      cbn [x_round bind ret]. eexists. split; [reflexivity|].
      apply restrict_0_to_180_range.
    + apply Rnot_lt_le in Hy. split; [intros [H|H]; lra | intros _].
      destruct (to_xfloat_inf _ Hy) as [sy Ey]. rewrite Ey. reflexivity.
Qed.

(** C1, as amended.  On every input with at least four corners
    [get_mrr_angle_of_long_side] returns an integer [a] with [0 <= a < 180]
    whenever the x or the y displacement from corner 0 to the selected
    endpoint is below the overflow threshold of binary64; when both
    displacements overflow, the slope is not a number and [round] raises
    [ValueError]. *)
Theorem angle_in_range_unless_overflow (c0 c1 c2 c3 : point)
    (tl : list point) :
  let end_pt := long_side_end_x c0 c1 c3 in
  let dx := fst c0 - fst end_pt in
  let dy := snd c0 - snd end_pt in
  (Rabs dx < OVERFLOW \/ Rabs dy < OVERFLOW ->
   exists a : Z,
     get_mrr_angle_of_long_side_x (c0 :: c1 :: c2 :: c3 :: tl) = inr a /\
     (0 <= a < 180)%Z) /\
  (OVERFLOW <= Rabs dx /\ OVERFLOW <= Rabs dy ->
   get_mrr_angle_of_long_side_x (c0 :: c1 :: c2 :: c3 :: tl)
   = inl ValueError).
Proof.
  intros end_pt dx dy. rewrite get_mrr_angle_of_long_side_x_factor.
  apply angle_of_segment_x_cases.
Qed.

(** *** Agreement of the two models away from overflow *)

Ltac rabs_cases :=
  unfold Rabs in *;
  repeat match goal with
         | |- context [Rcase_abs ?x] => destruct (Rcase_abs x)
         | H : context [Rcase_abs ?x] |- _ => destruct (Rcase_abs x)
         end.

Lemma small_span (a b : R) :
  Rabs a <= SAFE -> Rabs b <= SAFE -> Rabs (a - b) <= 2 * SAFE.
Proof. intros Ha Hb. rabs_cases; lra. Qed.

Lemma dist_le_spans (p q : point) :
  dist p q <= Rabs (fst p - fst q) + Rabs (snd p - snd q).
Proof.
  unfold dist. set (dx := fst p - fst q). set (dy := snd p - snd q).
  pose proof (Rabs_pos dx) as Hx. pose proof (Rabs_pos dy) as Hy.
  rewrite <- (sqrt_square (Rabs dx + Rabs dy)) by lra.
  apply sqrt_le_1_alt.
  assert (Ex : Rabs dx * Rabs dx = dx * dx) by (rabs_cases; ring).
  assert (Ey : Rabs dy * Rabs dy = dy * dy) by (rabs_cases; ring).
  assert (0 <= Rabs dx * Rabs dy) by (apply Rmult_le_pos; assumption).
  replace ((Rabs dx + Rabs dy) * (Rabs dx + Rabs dy))
    with (Rabs dx * Rabs dx + Rabs dy * Rabs dy + 2 * (Rabs dx * Rabs dy))
    by ring.
  lra.
Qed.

Lemma x_sub_small (a b : R) :
  Rabs a <= SAFE -> Rabs b <= SAFE -> x_sub a b = Finite (a - b).
Proof.
  intros Ha Hb. apply to_xfloat_finite.
  pose proof (small_span a b Ha Hb). pose proof OVERFLOW_above_SAFE.
  pose proof SAFE_large. lra.
Qed.

Lemma x_math_dist_small (p q : point) :
  small p -> small q -> x_math_dist p q = Finite (dist p q).
Proof.
  intros [Hpx Hpy] [Hqx Hqy]. unfold x_math_dist.
  rewrite !x_sub_small by assumption.
  apply to_xfloat_finite.
  pose proof (dist_le_spans p q). pose proof (dist_nonneg p q).
  pose proof (small_span _ _ Hpx Hqx). pose proof (small_span _ _ Hpy Hqy).
  pose proof OVERFLOW_above_SAFE. pose proof SAFE_large.
  rewrite Rabs_pos_eq by assumption. lra.
Qed.

Lemma long_side_end_x_small (c0 c1 c3 : point) :
  small c0 -> small c1 -> small c3 ->
  long_side_end_x c0 c1 c3 = long_side_end c0 c1 c3.
Proof.
  intros H0 H1 H3. unfold long_side_end_x, long_side_end, x_ge.
  rewrite !x_math_dist_small by assumption. cbn [x_le].
  destruct (Rle_dec (dist c0 c3) (dist c0 c1)),
           (Rge_dec (dist c0 c1) (dist c0 c3)); try reflexivity; exfalso; lra.
Qed.

Lemma angle_of_segment_x_small (p q : point) :
  small p -> small q ->
  angle_of_segment_x p q = inr (angle_of_segment p q).
Proof.
  intros [Hpx Hpy] [Hqx Hqy]. unfold angle_of_segment_x, angle_of_segment.
  rewrite !x_sub_small by assumption. cbn [x_abs x_le].
  set (dx := fst p - fst q). set (dy := snd p - snd q).
  destruct (Rle_dec (Rabs dx) VERTICAL_THRESHOLD) as [Hv|Hs]; [reflexivity|].
  assert (Hdx : dx <> 0) by (apply above_threshold_nonzero; exact Hs).
  cbn [x_div]. destruct (Req_dec_T dx 0) as [E|_]; [contradiction|].
  cbn [bind ret].
  assert (Hq : Rabs (dy / dx) < OVERFLOW).
  { unfold Rdiv. rewrite Rabs_mult, Rabs_inv.
    pose proof (small_span _ _ Hpy Hqy) as Hdy. fold dy in Hdy.
    pose proof (Rabs_pos dy) as Hdy0.
    assert (Hinv : / Rabs dx <= 1000).
    { replace 1000 with (/ VERTICAL_THRESHOLD)
        by (unfold VERTICAL_THRESHOLD; field).
      apply Rinv_le_contravar; [unfold VERTICAL_THRESHOLD | ]; lra. }
    assert (Hinv0 : 0 <= / Rabs dx).
    { left. apply Rinv_0_lt_compat. unfold VERTICAL_THRESHOLD in Hs. lra. }
    pose proof OVERFLOW_above_SAFE. pose proof SAFE_large.
    assert (Rabs dy * / Rabs dx <= 2 * SAFE * 1000)
      by (apply Rmult_le_compat; assumption).
    lra. }
  rewrite (to_xfloat_finite _ Hq). cbn [x_atan x_rad2deg].
  rewrite to_xfloat_degrees. reflexivity.
Qed.

Lemma rectangle_8x2_small :
  small (0, 0) /\ small (8, 0) /\ small (0, 2).
Proof.
  pose proof SAFE_large. unfold small. cbn [fst snd].
  repeat split; rabs_cases; lra.
Qed.

Lemma angle_in_range_unless_overflow_witness :
  (Rabs (fst (0, 0) - fst (long_side_end_x (0, 0) (8, 0) (0, 2))) < OVERFLOW \/
   Rabs (snd (0, 0) - snd (long_side_end_x (0, 0) (8, 0) (0, 2))) < OVERFLOW) /\
  exists a : Z,
    get_mrr_angle_of_long_side_x [(0, 0); (8, 0); (8, 2); (0, 2)] = inr a /\
    (0 <= a < 180)%Z.
Proof.
  destruct rectangle_8x2_small as (H0 & H1 & H3).
  assert (E : long_side_end_x (0, 0) (8, 0) (0, 2) = (8, 0)).
  { rewrite long_side_end_x_small by assumption.
    apply long_side_end_first.
    replace (dist (0, 0) (8, 0)) with 8 by (symmetry; dist_literal).
    replace (dist (0, 0) (0, 2)) with 2 by (symmetry; dist_literal). lra. }
  assert (H : Rabs (fst (0, 0) - fst (long_side_end_x (0, 0) (8, 0) (0, 2)))
              < OVERFLOW \/
              Rabs (snd (0, 0) - snd (long_side_end_x (0, 0) (8, 0) (0, 2)))
              < OVERFLOW).
  { left. rewrite E. cbn [fst snd].
    pose proof OVERFLOW_above_SAFE. pose proof SAFE_large. rabs_cases; lra. }
  split; [exact H|].
  exact (proj1 (angle_in_range_unless_overflow (0, 0) (8, 0) (8, 2) (0, 2) []) H).
Defined.

(** *** The overflowing rectangle *)

Lemma overflow_span : OVERFLOW <= Rabs (IZR (- 10 ^ 308) - IZR (10 ^ 308)).
Proof.
  rewrite <- minus_IZR, <- abs_IZR. unfold OVERFLOW. apply IZR_le.
  vm_compute. discriminate.
Qed.

Lemma point_neq (p q : point) : fst p <> fst q -> p <> q.
Proof. intros H E. apply H. rewrite E. reflexivity. Qed.

Ltac distinct_points :=
  cbn [In]; intros H; repeat (destruct H as [H|H]); try contradiction;
  revert H; apply point_neq; cbn [fst]; apply eq_IZR_contrapositive; vm_compute;
  discriminate.

Lemma overflow_box_distinct : NoDup overflow_box.
Proof.
  unfold overflow_box.
  apply NoDup_cons; [distinct_points|].
  apply NoDup_cons; [distinct_points|].
  apply NoDup_cons; [distinct_points|].
  apply NoDup_cons; [intros [] | apply NoDup_nil].
Qed.

(** C1, as stated, fails: the corners of [overflow_box] are finite and
    distinct and form a rectangle, the long side is selected, both
    displacements overflow to an infinity, their quotient is not a number
    and [round] raises [ValueError]; no integer is returned. *)
Lemma overflow_box_raises :
  NoDup overflow_box /\
  get_mrr_angle_of_long_side_x overflow_box = inl ValueError /\
  ~ (exists a : Z,
        get_mrr_angle_of_long_side_x overflow_box = inr a /\
        (0 <= a < 180)%Z).
Proof.
  assert (E : get_mrr_angle_of_long_side_x overflow_box = inl ValueError).
  { unfold overflow_box. rewrite get_mrr_angle_of_long_side_x_factor.
    set (c0 := (IZR (- 10 ^ 308), IZR (- 10 ^ 308))).
    set (c1 := (IZR (10 ^ 308), IZR (10 ^ 308))).
    set (c3 := (IZR (- 10 ^ 308 - 10 ^ 300), IZR (- 10 ^ 308 + 10 ^ 300))).
    assert (E1 : x_math_dist c0 c1 = Inf false).
    { unfold x_math_dist, x_sub, c0, c1. cbn [fst snd].
      destruct (to_xfloat_inf _ overflow_span) as [s Es]. rewrite Es.
      reflexivity. }
    assert (Esel : long_side_end_x c0 c1 c3 = c1).
    { unfold long_side_end_x, x_ge. rewrite E1.
      pose proof (x_math_dist_not_nan c0 c3) as Hn.
      destruct (x_math_dist c0 c3) as [r|[|]|]; try reflexivity.
      contradiction. }
    rewrite Esel.
    apply (proj2 (angle_of_segment_x_cases c0 c1)).
    unfold c0, c1. cbn [fst snd]. split; exact overflow_span. }
  split; [exact overflow_box_distinct|]. split; [exact E|].
  intros (a & Ha & _). rewrite E in Ha. discriminate.
Qed.

(** ** C2: the slope path *)



(** ** C3: the vertical guard *)

Lemma no_zero_division (box : list point) :
  get_mrr_angle_of_long_side box <> inl ZeroDivisionError.
Proof.
  destruct box as [|c0 [|c1 [|c2 [|c3 tl]]]];
    try (unfold get_mrr_angle_of_long_side, getitem; cbn; discriminate).
  rewrite get_mrr_angle_of_long_side_factor. discriminate.
Qed.

(** C3.  When the selected endpoint is within the vertical threshold of
    corner 0 in x, the function returns exactly 90, also where the division
    would raise; the division is reached only with [abs dx > 0.001], where it
    is defined, and the function never raises [ZeroDivisionError]. *)
Theorem vertical_guard (c0 c1 c2 c3 : point) (tl : list point) :
  let end_pt := long_side_end c0 c1 c3 in
  let dx := fst c0 - fst end_pt in
  let dy := snd c0 - snd end_pt in
  (Rabs dx <= VERTICAL_THRESHOLD ->
   get_mrr_angle_of_long_side (c0 :: c1 :: c2 :: c3 :: tl) = inr 90%Z) /\
  (~ Rabs dx <= VERTICAL_THRESHOLD ->
   Rabs dx > 1 / 1000 /\ py_div dy dx = inr (dy / dx)) /\
  get_mrr_angle_of_long_side (c0 :: c1 :: c2 :: c3 :: tl)
  <> inl ZeroDivisionError.
Proof.
  intros end_pt dx dy. split; [|split].
  - intros Hv. rewrite get_mrr_angle_of_long_side_factor.
    fold end_pt. rewrite angle_of_segment_vertical by exact Hv. reflexivity.
  - intros Hs. split.
    + unfold VERTICAL_THRESHOLD in Hs. lra.
    + apply py_div_nonzero, above_threshold_nonzero, Hs.
  - apply no_zero_division.
Qed.

Lemma vertical_guard_witness :
  Rabs (fst (0, 0) - fst (long_side_end (0, 0) (0, 8) (2, 0)))
  <= VERTICAL_THRESHOLD /\
  get_mrr_angle_of_long_side [(0, 0); (0, 8); (2, 8); (2, 0)] = inr 90%Z /\
  py_div (snd (0, 0) - snd (0, 8)) (fst (0, 0) - fst (0, 8))
  = inl ZeroDivisionError.
Proof.
  assert (E : long_side_end (0, 0) (0, 8) (2, 0) = (0, 8)).
  { apply long_side_end_first.
    replace (dist (0, 0) (0, 8)) with 8 by (symmetry; dist_literal).
    replace (dist (0, 0) (2, 0)) with 2 by (symmetry; dist_literal). lra. }
  assert (H : Rabs (fst (0, 0) - fst (long_side_end (0, 0) (0, 8) (2, 0)))
              <= VERTICAL_THRESHOLD).
  { rewrite E. rabs_literal. }
  split; [exact H|]. split.
  - exact (proj1 (vertical_guard (0, 0) (0, 8) (2, 8) (2, 0) []) H).
  - unfold py_div. cbn [fst snd].
    destruct (Req_dec_T (0 - 0) 0) as [_|Hn]; [reflexivity|].
    exfalso. apply Hn. ring.
Defined.

(** ** C4: selection of the endpoint *)

(** C4.  The endpoint that gives the direction is corner 1 when
    [dist corner0 corner1 >= dist corner0 corner3] and corner 3 otherwise; on
    a tie it is corner 1 and the function returns an angle, not an error. *)
Theorem endpoint_selection (c0 c1 c2 c3 : point) (tl : list point) :
  (dist c0 c1 >= dist c0 c3 ->
   get_mrr_angle_of_long_side (c0 :: c1 :: c2 :: c3 :: tl)
   = inr (angle_of_segment c0 c1)) /\
  (dist c0 c1 < dist c0 c3 ->
   get_mrr_angle_of_long_side (c0 :: c1 :: c2 :: c3 :: tl)
   = inr (angle_of_segment c0 c3)) /\
  (dist c0 c1 = dist c0 c3 ->
   get_mrr_angle_of_long_side (c0 :: c1 :: c2 :: c3 :: tl)
   = inr (angle_of_segment c0 c1)).
Proof.
  rewrite get_mrr_angle_of_long_side_factor. split; [|split]; intros H.
  - rewrite long_side_end_first by exact H. reflexivity.
  - rewrite long_side_end_third by exact H. reflexivity.
  - rewrite long_side_end_first by lra. reflexivity.
Qed.

Lemma endpoint_selection_witness :
  (dist (0, 0) (2, 0) = dist (0, 0) (0, 2) /\
   get_mrr_angle_of_long_side [(0, 0); (2, 0); (2, 2); (0, 2)] = inr 0%Z /\
   angle_of_segment (0, 0) (0, 2) = 90%Z) /\
  (dist (0, 0) (2, 0) < dist (0, 0) (0, 8) /\
   get_mrr_angle_of_long_side [(0, 0); (2, 0); (2, 8); (0, 8)] = inr 90%Z /\
   angle_of_segment (0, 0) (2, 0) = 0%Z).
Proof.
  assert (D2x : dist (0, 0) (2, 0) = 2) by dist_literal.
  assert (D2y : dist (0, 0) (0, 2) = 2) by dist_literal.
  assert (D8y : dist (0, 0) (0, 8) = 8) by dist_literal.
  assert (Hh : angle_of_segment (0, 0) (2, 0) = 0%Z).
  { apply angle_of_segment_horizontal; [|reflexivity].
    intros Hv. revert Hv. rabs_literal. }
  assert (Hv2 : angle_of_segment (0, 0) (0, 2) = 90%Z).
  { apply angle_of_segment_vertical. rabs_literal. }
  assert (Hv8 : angle_of_segment (0, 0) (0, 8) = 90%Z).
  { apply angle_of_segment_vertical. rabs_literal. }
  assert (Tie : dist (0, 0) (2, 0) = dist (0, 0) (0, 2)) by congruence.
  assert (Lt : dist (0, 0) (2, 0) < dist (0, 0) (0, 8)) by lra.
  split; (split; [assumption|]); (split; [|assumption]).
  - refine (eq_trans
      (proj2 (proj2 (endpoint_selection (0, 0) (2, 0) (2, 2) (0, 2) [])) Tie) _).
    now rewrite Hh.
  - refine (eq_trans
      (proj1 (proj2 (endpoint_selection (0, 0) (2, 0) (2, 8) (0, 8) [])) Lt) _).
    now rewrite Hv8.
Defined.

(** ** C5: the dimensions *)

(** C5.  [get_mrr_dims] returns [(max side_a side_b, min side_a side_b)]
    for [side_a = dist corner0 corner1] and [side_b = dist corner0 corner3]:
    the length is at least the width, both are non-negative, and they are
    equal when the two sides are. *)
Theorem dims_max_min (c0 c1 c2 c3 : point) (tl : list point) :
  let side_a := dist c0 c1 in
  let side_b := dist c0 c3 in
  exists length width : R,
    get_mrr_dims (c0 :: c1 :: c2 :: c3 :: tl) = inr (length, width) /\
    length = Rmax side_a side_b /\
    width = Rmin side_a side_b /\
    length >= width /\
    width >= 0 /\
    length >= 0 /\
    (side_a = side_b -> length = width).
Proof.
  intros side_a side_b. rewrite get_mrr_dims_factor. fold side_a side_b.
  exists (Rmax side_a side_b), (Rmin side_a side_b).
  pose proof (dist_nonneg c0 c1) as Ha. pose proof (dist_nonneg c0 c3) as Hb.
  fold side_a in Ha. fold side_b in Hb.
  split; [reflexivity|]. split; [reflexivity|]. split; [reflexivity|].
  unfold Rmax, Rmin. destruct (Rle_dec side_a side_b); repeat split; lra.
Qed.

Lemma dims_max_min_witness :
  dist (0, 0) (2, 0) = dist (0, 0) (0, 2) /\
  get_mrr_dims [(0, 0); (2, 0); (2, 2); (0, 2)] = inr (2, 2).
Proof.
  assert (D2x : dist (0, 0) (2, 0) = 2) by dist_literal.
  assert (D2y : dist (0, 0) (0, 2) = 2) by dist_literal.
  assert (Tie : dist (0, 0) (2, 0) = dist (0, 0) (0, 2)) by congruence.
  split; [exact Tie|].
  destruct (dims_max_min (0, 0) (2, 0) (2, 2) (0, 2) [])
    as (l & w & Hres & Hl & Hw & _ & _ & _ & Hsq).
  refine (eq_trans Hres _).
  rewrite <- (Hsq Tie), Hl, D2x, D2y, Rmax_left by lra. reflexivity.
Defined.

(** ** C6: [restrict_0_to_180] folds an integer modulo 180 *)

(** C6, as amended.  On every integer [d], the type of value that [round]
    hands to it, the loop of [restrict_0_to_180] is a total function: it
    stops after some number [n] of additions of 180, at the first
    non-negative value of [d + 180 * n].  The result is [d] modulo 180 and
    lies in [0, 180). *)
Theorem restrict_0_to_180_fold_int (d : Z) :
  (exists n : nat,
      restrict_0_to_180_loop d = (d + 180 * Z.of_nat n)%Z /\
      (0 <= restrict_0_to_180_loop d)%Z /\
      (forall k : nat, (k < n)%nat -> (d + 180 * Z.of_nat k < 0)%Z)) /\
  restrict_0_to_180 d = (d mod 180)%Z /\
  (0 <= restrict_0_to_180 d < 180)%Z.
Proof.
  split; [apply restrict_0_to_180_loop_iter|].
  split; [apply restrict_0_to_180_mod | apply restrict_0_to_180_range].
Qed.

Module Binary64Facts.
Import PrimFloat.

(** A negative float that adding 180 leaves unchanged keeps the loop going
    for ever. *)
Lemma binary64_loop_stuck (d : float) :
  ltb d 0%float = true ->
  add d 180%float = d ->
  forall fuel : nat, Binary64.restrict_0_to_180_loop fuel d = None.
Proof.
  intros Hneg Hadd fuel. induction fuel as [|fuel IH]; [reflexivity|].
  cbn [Binary64.restrict_0_to_180_loop]. rewrite Hneg, Hadd. exact IH.
Qed.

(** The loop on floats does run: two additions take -270.5 to 89.5, and
    the loop test is evaluated three times. *)
Example binary64_loop_runs :
  Binary64.restrict_0_to_180_loop 3 (-270.5)%float = Some 89.5%float /\
  Binary64.restrict_0_to_180_loop 2 (-270.5)%float = None.
Proof. split; reflexivity. Qed.

(** C6, as stated, fails on floats: at [-1e19] the sum [-1e19 + 180] is
    [-1e19] again in binary64, the loop test stays true and the function
    never returns, however many times the loop is allowed to run. *)
Lemma restrict_0_to_180_never_returns :
  ltb (-1e19)%float 0%float = true /\
  add (-1e19)%float 180%float = (-1e19)%float /\
  ~ (exists (fuel : nat) (r : float),
        Binary64.restrict_0_to_180_loop fuel (-1e19)%float = Some r).
Proof.
  split; [reflexivity|]. split; [reflexivity|].
  intros (fuel & r & Hr).
  rewrite (binary64_loop_stuck (-1e19)%float eq_refl eq_refl fuel) in Hr.
  discriminate.
Qed.

End Binary64Facts.

(** ** C7 and C10: rigid motions that keep the angle *)

Lemma dist_rotate180 (c p q : point) :
  dist (rotate180 c p) (rotate180 c q) = dist p q.
Proof. unfold dist, rotate180. cbn [fst snd]. f_equal. ring. Qed.

Lemma dist_translate (t p q : point) :
  dist (translate t p) (translate t q) = dist p q.
Proof. unfold dist, translate. cbn [fst snd]. f_equal. ring. Qed.

Lemma long_side_end_rotate180 (c c0 c1 c3 : point) :
  long_side_end (rotate180 c c0) (rotate180 c c1) (rotate180 c c3)
  = rotate180 c (long_side_end c0 c1 c3).
Proof.
  unfold long_side_end. rewrite !dist_rotate180.
  destruct (Rge_dec (dist c0 c1) (dist c0 c3)); reflexivity.
Qed.

Lemma long_side_end_translate (t c0 c1 c3 : point) :
  long_side_end (translate t c0) (translate t c1) (translate t c3)
  = translate t (long_side_end c0 c1 c3).
Proof.
  unfold long_side_end. rewrite !dist_translate.
  destruct (Rge_dec (dist c0 c1) (dist c0 c3)); reflexivity.
Qed.

Lemma angle_of_segment_rotate180 (c p q : point) :
  angle_of_segment (rotate180 c p) (rotate180 c q) = angle_of_segment p q.
Proof.
  unfold angle_of_segment, rotate180. cbn [fst snd].
  replace (2 * fst c - fst p - (2 * fst c - fst q))
    with (- (fst p - fst q)) by ring.
  replace (2 * snd c - snd p - (2 * snd c - snd q))
    with (- (snd p - snd q)) by ring.
  rewrite Rabs_Ropp.
  destruct (Rle_dec (Rabs (fst p - fst q)) VERTICAL_THRESHOLD) as [Hv|Hs];
    [reflexivity|].
  apply above_threshold_nonzero in Hs.
  replace (- (snd p - snd q) / - (fst p - fst q))
    with ((snd p - snd q) / (fst p - fst q)) by (field; exact Hs).
  reflexivity.
Qed.

Lemma angle_of_segment_translate (t p q : point) :
  angle_of_segment (translate t p) (translate t q) = angle_of_segment p q.
Proof.
  unfold angle_of_segment, translate. cbn [fst snd].
  replace (fst p + fst t - (fst q + fst t)) with (fst p - fst q) by ring.
  replace (snd p + snd t - (snd q + snd t)) with (snd p - snd q) by ring.
  reflexivity.
Qed.

(** Inputs with fewer than four corners raise [IndexError] in both
    functions, whatever the points are. *)
Ltac short_box :=
  unfold get_mrr_angle_of_long_side, get_mrr_dims, getitem; reflexivity.

(** C7.  Rotating every corner by 180 degrees about any centre [c], that is
    replacing each point [p] by [2c - p], leaves the result of
    [get_mrr_angle_of_long_side] unchanged. *)
Theorem angle_rotate180_invariant (c : point) (box : list point) :
  get_mrr_angle_of_long_side (map (rotate180 c) box)
  = get_mrr_angle_of_long_side box.
Proof.
  destruct box as [|c0 [|c1 [|c2 [|c3 tl]]]]; try short_box.
  cbn [map]. rewrite !get_mrr_angle_of_long_side_factor.
  rewrite long_side_end_rotate180, angle_of_segment_rotate180. reflexivity.
Qed.

(** C10.  Translating every corner by the same vector leaves the result of
    [get_mrr_angle_of_long_side] and both components of the result of
    [get_mrr_dims] unchanged. *)
Theorem translate_invariant (t : point) (box : list point) :
  get_mrr_angle_of_long_side (map (translate t) box)
  = get_mrr_angle_of_long_side box /\
  get_mrr_dims (map (translate t) box) = get_mrr_dims box.
Proof.
  destruct box as [|c0 [|c1 [|c2 [|c3 tl]]]]; try (split; short_box).
  cbn [map]. rewrite !get_mrr_angle_of_long_side_factor, !get_mrr_dims_factor.
  rewrite long_side_end_translate, angle_of_segment_translate.
  rewrite !dist_translate. split; reflexivity.
Qed.

(** ** C8: the two functions agree on the long side *)

Lemma dist_long_side_end (c0 c1 c3 : point) :
  dist c0 (long_side_end c0 c1 c3) = Rmax (dist c0 c1) (dist c0 c3).
Proof.
  unfold long_side_end.
  destruct (Rge_dec (dist c0 c1) (dist c0 c3)) as [Hge|Hlt].
  - rewrite Rmax_left by lra. reflexivity.
  - rewrite Rmax_right by lra. reflexivity.
Qed.

(** C8.  The endpoint [e] that [get_mrr_angle_of_long_side] measures the
    angle to is at the distance from corner 0 that [get_mrr_dims] returns as
    the length. *)
Theorem angle_dims_agree (c0 c1 c2 c3 : point) (tl : list point) :
  let box := c0 :: c1 :: c2 :: c3 :: tl in
  let e := if Rge_dec (dist c0 c1) (dist c0 c3) then c1 else c3 in
  exists (length width : R),
    get_mrr_angle_of_long_side box = inr (angle_of_segment c0 e) /\
    get_mrr_dims box = inr (length, width) /\
    dist c0 e = length.
Proof.
  intros box e. unfold box.
  rewrite get_mrr_angle_of_long_side_factor, get_mrr_dims_factor.
  change e with (long_side_end c0 c1 c3).
  exists (Rmax (dist c0 c1) (dist c0 c3)), (Rmin (dist c0 c1) (dist c0 c3)).
  split; [reflexivity|]. split; [reflexivity|]. apply dist_long_side_end.
Qed.

(** ** C9: the rectangle of the unit test, rotated by 60 degrees *)

Lemma rotate_deg_60 (p : point) :
  rotate_deg 60 p
  = (fst p * (1 / 2) - snd p * (sqrt 3 / 2),
     fst p * (sqrt 3 / 2) + snd p * (1 / 2)).
Proof.
  unfold rotate_deg. cbv zeta.
  replace (60 * (PI / 180)) with (PI / 3) by field.
  rewrite sin_PI3, cos_PI3. reflexivity.
Qed.

Lemma atan_sqrt3 : atan (sqrt 3) = PI / 3.
Proof.
  rewrite <- tan_PI3. apply atan_tan.
  pose proof PI_RGT_0. split; lra.
Qed.

(** C9.  On the corners [[-4,1],[4,1],[4,-1],[-4,-1]] rotated by 60 degrees
    about the origin, in that order, [get_mrr_angle_of_long_side] returns 60
    and [get_mrr_dims] returns (8, 2). *)
Theorem rotated_60_scenario :
  let box := map (rotate_deg 60) base_item_points in
  get_mrr_angle_of_long_side box = inr 60%Z /\
  get_mrr_dims box = inr (8, 2).
Proof.
  intros box. unfold box, base_item_points. cbn [map].
  rewrite !rotate_deg_60. cbn [fst snd].
  set (s := sqrt 3).
  assert (Hs : s * s = 3) by (apply sqrt_def; lra).
  assert (Hs0 : 0 <= s) by apply sqrt_pos.
  set (c0 := (-4 * (1 / 2) - 1 * (s / 2), -4 * (s / 2) + 1 * (1 / 2))).
  set (c1 := (4 * (1 / 2) - 1 * (s / 2), 4 * (s / 2) + 1 * (1 / 2))).
  set (c2 := (4 * (1 / 2) - -1 * (s / 2), 4 * (s / 2) + -1 * (1 / 2))).
  set (c3 := (-4 * (1 / 2) - -1 * (s / 2), -4 * (s / 2) + -1 * (1 / 2))).
  assert (D1 : dist c0 c1 = 8).
  { apply dist_eq; [lra|]. unfold c0, c1. cbn [fst snd]. nra. }
  assert (D3 : dist c0 c3 = 2).
  { apply dist_eq; [lra|]. unfold c0, c3. cbn [fst snd]. nra. }
  split.
  - change (get_mrr_angle_of_long_side (c0 :: c1 :: c2 :: c3 :: []) = inr 60%Z).
    rewrite get_mrr_angle_of_long_side_factor.
    rewrite long_side_end_first by (rewrite D1, D3; lra).
    unfold angle_of_segment, c0, c1. cbn [fst snd].
    replace (-4 * (1 / 2) - 1 * (s / 2) - (4 * (1 / 2) - 1 * (s / 2)))
      with (-4) by field.
    replace (-4 * (s / 2) + 1 * (1 / 2) - (4 * (s / 2) + 1 * (1 / 2)))
      with (-4 * s) by field.
    destruct (Rle_dec (Rabs (-4)) VERTICAL_THRESHOLD) as [Hv|_].
    { exfalso. revert Hv. rabs_literal. }
    replace (-4 * s / -4) with s by field.
    unfold s. rewrite atan_sqrt3. unfold rad2deg.
    replace (PI / 3 * (180 / PI)) with 60 by (field; apply PI_neq0).
    rewrite (py_round_IZR 60), restrict_0_to_180_mod. reflexivity.
  - change (get_mrr_dims (c0 :: c1 :: c2 :: c3 :: []) = inr (8, 2)).
    rewrite get_mrr_dims_factor, D1, D3.
    rewrite Rmax_left, Rmin_right by lra. reflexivity.
Qed.

(** * Further properties of the calculator *)

(** ** Which points of [box] are read *)

(** X1.  On an input with at least four points both functions read corners
    0, 1 and 3 only: corner 2 and every point after corner 3, among them the
    closing point of the ring, have no influence on the results. *)
Theorem only_corners_0_1_3 (c0 c1 c2 c2' c3 : point) (tl tl' : list point) :
  get_mrr_angle_of_long_side (c0 :: c1 :: c2 :: c3 :: tl)
  = get_mrr_angle_of_long_side (c0 :: c1 :: c2' :: c3 :: tl') /\
  get_mrr_dims (c0 :: c1 :: c2 :: c3 :: tl)
  = get_mrr_dims (c0 :: c1 :: c2' :: c3 :: tl').
Proof.
  rewrite !get_mrr_angle_of_long_side_factor, !get_mrr_dims_factor.
  split; reflexivity.
Qed.

Lemma angle_of_segment_x_no_index_error (p q : point) :
  angle_of_segment_x p q <> inl IndexError.
Proof.
  destruct (angle_of_segment_x_cases p q) as [Hfin Hovf].
  destruct (Rlt_dec (Rabs (fst p - fst q)) OVERFLOW) as [Hx|Hx].
  - destruct (Hfin (or_introl Hx)) as (a & Ha & _). rewrite Ha. discriminate.
  - destruct (Rlt_dec (Rabs (snd p - snd q)) OVERFLOW) as [Hy|Hy].
    + destruct (Hfin (or_intror Hy)) as (a & Ha & _). rewrite Ha. discriminate.
    + rewrite Hovf by (split; lra). discriminate.
Qed.

(** X2.  Both functions raise [IndexError] exactly on the lists of fewer
    than four points, the angle function also when the overflow of binary64
    is taken into account; on four points or more [get_mrr_dims] returns a
    pair. *)
Theorem index_error_iff_short (box : list point) :
  (get_mrr_angle_of_long_side box = inl IndexError <-> (length box < 4)%nat) /\
  (get_mrr_angle_of_long_side_x box = inl IndexError
   <-> (length box < 4)%nat) /\
  (get_mrr_dims box = inl IndexError <-> (length box < 4)%nat) /\
  ((4 <= length box)%nat -> exists d : R * R, get_mrr_dims box = inr d).
Proof.
  destruct box as [|c0 [|c1 [|c2 [|c3 tl]]]]; cbn [length];
    try (repeat split; intros; try lia;
         unfold get_mrr_angle_of_long_side, get_mrr_angle_of_long_side_x,
           get_mrr_dims, getitem; reflexivity).
  rewrite get_mrr_angle_of_long_side_factor, get_mrr_dims_factor,
    get_mrr_angle_of_long_side_x_factor.
  split; [split; [discriminate | lia]|].
  split; [split; [|lia]|].
  { intros H. exfalso. exact (angle_of_segment_x_no_index_error _ _ H). }
  split; [split; [discriminate | lia]|].
  intros _. eexists. reflexivity.
Qed.

Lemma index_error_iff_short_witness :
  (length [(0, 0); (8, 0); (8, 2)] < 4)%nat /\
  get_mrr_angle_of_long_side [(0, 0); (8, 0); (8, 2)] = inl IndexError /\
  get_mrr_angle_of_long_side_x [(0, 0); (8, 0); (8, 2)] = inl IndexError /\
  get_mrr_dims [(0, 0); (8, 0); (8, 2)] = inl IndexError.
Proof.
  assert (H : (length [(0, 0); (8, 0); (8, 2)] < 4)%nat) by (simpl; lia).
  destruct (index_error_iff_short [(0, 0); (8, 0); (8, 2)])
    as (Ha & Hx & Hd & _).
  split; [exact H|]. split; [exact (proj2 Ha H)|].
  split; [exact (proj2 Hx H) | exact (proj2 Hd H)].
Defined.

(** ** [restrict_0_to_180] as a fold *)

(** X3.  [restrict_0_to_180] has period 180: adding any multiple of 180,
    positive or negative, does not change the result; so 181 gives the same
    as 1, as the comment at the call says. *)
Theorem restrict_0_to_180_periodic (d k : Z) :
  restrict_0_to_180 (d + 180 * k) = restrict_0_to_180 d.
Proof.
  rewrite !restrict_0_to_180_mod, Z.mul_comm. apply Z_mod_plus_full.
Qed.

(** X4.  [restrict_0_to_180] leaves the angles of [0, 180) as they are, and
    applying it twice is the same as applying it once. *)
Theorem restrict_0_to_180_fixes_range (d : Z) :
  ((0 <= d < 180)%Z -> restrict_0_to_180 d = d) /\
  restrict_0_to_180 (restrict_0_to_180 d) = restrict_0_to_180 d.
Proof.
  split.
  - intros Hd. rewrite restrict_0_to_180_mod. apply Z.mod_small. exact Hd.
  - rewrite !restrict_0_to_180_mod. apply Z.mod_mod. lia.
Qed.

Lemma restrict_0_to_180_fixes_range_witness :
  (0 <= 179 < 180)%Z /\ restrict_0_to_180 179 = 179%Z.
Proof.
  assert (H : (0 <= 179 < 180)%Z) by lia.
  split; [exact H|]. exact (proj1 (restrict_0_to_180_fixes_range 179) H).
Defined.

(** ** Scaling *)

Lemma dist_scale (k : R) (origin p q : point) :
  dist (scale k k origin p) (scale k k origin q) = Rabs k * dist p q.
Proof.
  unfold dist, scale. cbn [fst snd].
  replace ((fst origin + k * (fst p - fst origin)
            - (fst origin + k * (fst q - fst origin)))
           * (fst origin + k * (fst p - fst origin)
              - (fst origin + k * (fst q - fst origin)))
           + (snd origin + k * (snd p - snd origin)
              - (snd origin + k * (snd q - snd origin)))
             * (snd origin + k * (snd p - snd origin)
                - (snd origin + k * (snd q - snd origin))))
    with (Rsqr k * ((fst p - fst q) * (fst p - fst q)
                    + (snd p - snd q) * (snd p - snd q)))
    by (unfold Rsqr; ring).
  rewrite sqrt_mult;
    [| apply Rle_0_sqr
     | apply Rplus_le_le_0_compat;
       [apply (Rle_0_sqr (fst p - fst q)) | apply (Rle_0_sqr (snd p - snd q))]].
  rewrite sqrt_Rsqr_abs. reflexivity.
Qed.

Lemma Rmin_mult_nonneg (r p q : R) :
  0 <= r -> Rmin (r * p) (r * q) = r * Rmin p q.
Proof.
  intros Hr. unfold Rmin.
  destruct (Rle_dec (r * p) (r * q)) as [H1|H1],
           (Rle_dec p q) as [H2|H2]; try reflexivity.
  - apply Rnot_le_lt in H2.
    assert (0 <= r * (p - q)) by (apply Rmult_le_pos; lra). lra.
  - apply Rnot_le_lt in H1.
    assert (0 <= r * (q - p)) by (apply Rmult_le_pos; lra). lra.
Qed.



(** X5.  Scaling every corner by the same factor [k] about any origin
    multiplies the length and the width returned by [get_mrr_dims] by
    [abs k]; an input that raises keeps raising. *)
Theorem dims_scale (k : R) (origin : point) (box : list point) :
  get_mrr_dims (map (scale k k origin) box)
  = (d <- get_mrr_dims box ;; ret (Rabs k * fst d, Rabs k * snd d)).
Proof.
  destruct box as [|c0 [|c1 [|c2 [|c3 tl]]]]; try short_box.
  cbn [map]. rewrite !get_mrr_dims_factor, !dist_scale. cbn [bind ret fst snd].
  rewrite RmaxRmult, Rmin_mult_nonneg by apply Rabs_pos. reflexivity.
Qed.



(** ** Rotation by an arbitrary angle *)

Lemma dist_rotate_deg (theta : R) (p q : point) :
  dist (rotate_deg theta p) (rotate_deg theta q) = dist p q.
Proof.
  unfold dist, rotate_deg. cbn [fst snd].
  set (a := theta * (PI / 180)).
  assert (H : sin a * sin a + cos a * cos a = 1) by apply sin2_cos2.
  f_equal.
  transitivity (((fst p - fst q) * (fst p - fst q)
                 + (snd p - snd q) * (snd p - snd q))
                * (sin a * sin a + cos a * cos a)); [ring|].
  rewrite H. ring.
Qed.

(** X7.  [get_mrr_dims] is invariant under rotation of the corners about the
    origin by any angle, and under the half turn about any centre. *)
Theorem dims_rotation_invariant (theta : R) (c : point) (box : list point) :
  get_mrr_dims (map (rotate_deg theta) box) = get_mrr_dims box /\
  get_mrr_dims (map (rotate180 c) box) = get_mrr_dims box.
Proof.
  destruct box as [|c0 [|c1 [|c2 [|c3 tl]]]]; try (split; short_box).
  cbn [map]. rewrite !get_mrr_dims_factor, !dist_rotate_deg, !dist_rotate180.
  split; reflexivity.
Qed.

(** ** The rotated rectangle of the tests *)

Lemma tan_shift_PI (x : R) : cos x <> 0 -> sin x / cos x = tan (x - PI).
Proof.
  intros Hc. unfold tan.
  assert (Hs : sin x = - sin (x - PI)).
  { rewrite <- neg_sin. f_equal. ring. }
  assert (Hc' : cos x = - cos (x - PI)).
  { rewrite <- neg_cos. f_equal. ring. }
  assert (Hn : cos (x - PI) <> 0) by (intros E; apply Hc; rewrite Hc', E; ring).
  rewrite Hs, Hc'. field. exact Hn.
Qed.

Lemma py_round_add_even (x : R) (k : Z) :
  Z.even k = true -> py_round (x + IZR k) = (py_round x + k)%Z.
Proof.
  intros Hk. unfold py_round. rewrite Zfloor_addz, plus_IZR.
  replace (x + IZR k - (IZR (Zfloor x) + IZR k)) with (x - IZR (Zfloor x))
    by ring.
  rewrite Z.even_add, Hk.
  destruct (Rlt_dec (x - IZR (Zfloor x)) (1 / 2)); [reflexivity|].
  destruct (Rlt_dec (1 / 2) (x - IZR (Zfloor x))); [lia|].
  destruct (Z.even (Zfloor x)); cbn [Bool.eqb]; lia.
Qed.

(** The angle of a segment whose displacement is [r] times the unit vector
    at [theta] degrees, up to sign: the rotation rounded to the nearest
    degree, folded into [0, 180). *)
Lemma angle_of_segment_direction_R (p q : point) (r theta : R) :
  fst p - fst q = - (r * cos (theta * (PI / 180))) ->
  snd p - snd q = - (r * sin (theta * (PI / 180))) ->
  0 <= theta < 180 ->
  theta = 90 \/
  Rabs r * Rabs (cos (theta * (PI / 180))) > VERTICAL_THRESHOLD ->
  angle_of_segment p q = restrict_0_to_180 (py_round theta).
Proof.
  intros Hx Hy Hth Hdx. unfold angle_of_segment. rewrite Hx, Hy.
  set (al := theta * (PI / 180)) in *.
  pose proof PI_RGT_0 as Hpi.
  assert (Hthr : 0 < VERTICAL_THRESHOLD) by (unfold VERTICAL_THRESHOLD; lra).
  destruct (Req_dec_T theta 90) as [E90|N90].
  - (* the vertical branch *)
    assert (Hc : cos al = 0).
    { unfold al. rewrite E90. replace (90 * (PI / 180)) with (PI / 2) by field.
      apply cos_PI2. }
    rewrite Hc, Rmult_0_r, Ropp_0, Rabs_R0, E90.
    rewrite (py_round_IZR 90), restrict_0_to_180_mod.
    destruct (Rle_dec 0 VERTICAL_THRESHOLD) as [_|Hn]; [reflexivity | lra].
  - destruct Hdx as [E|Hdx]; [contradiction|].
    rewrite Rabs_Ropp, Rabs_mult.
    destruct (Rle_dec (Rabs r * Rabs (cos al)) VERTICAL_THRESHOLD) as [Hv|_];
      [lra|].
    assert (Hr : r <> 0).
    { intros E. rewrite E, Rabs_R0 in Hdx. lra. }
    assert (Hc : cos al <> 0).
    { intros E. rewrite E, Rabs_R0 in Hdx. lra. }
    replace (- (r * sin al) / - (r * cos al)) with (sin al / cos al)
      by (field; split; assumption).
    destruct (Rlt_dec theta 90) as [Hlt|Hge].
    + (* 0 <= theta < 90: the arc tangent gives the angle back *)
      change (sin al / cos al) with (tan al).
      rewrite atan_tan by (unfold al; split; nra).
      replace (rad2deg al) with theta by (unfold rad2deg, al; field; lra).
      reflexivity.
    + (* 90 < theta < 180: the arc tangent gives theta - 180 *)
      assert (Hgt : 90 < theta) by lra.
      rewrite tan_shift_PI by exact Hc.
      rewrite atan_tan by (unfold al; split; nra).
      replace (rad2deg (al - PI)) with (theta + IZR (-180))
        by (unfold rad2deg, al; field; lra).
      rewrite py_round_add_even by reflexivity.
      rewrite !restrict_0_to_180_mod.
      replace (py_round theta + -180)%Z with (py_round theta + (-1) * 180)%Z
        by ring.
      apply Z_mod_plus_full.
Qed.

Lemma angle_of_segment_direction (p q : point) (r : R) (theta : Z) :
  fst p - fst q = - (r * cos (IZR theta * (PI / 180))) ->
  snd p - snd q = - (r * sin (IZR theta * (PI / 180))) ->
  (0 <= theta < 180)%Z ->
  theta = 90%Z \/
  Rabs r * Rabs (cos (IZR theta * (PI / 180))) > VERTICAL_THRESHOLD ->
  angle_of_segment p q = theta.
Proof.
  intros Hx Hy Hth Hdx.
  rewrite (angle_of_segment_direction_R p q r (IZR theta) Hx Hy).
  - rewrite py_round_IZR, restrict_0_to_180_mod. apply Z.mod_small. exact Hth.
  - split; [apply IZR_le | apply IZR_lt]; lia.
  - destruct Hdx as [E|Hdx]; [left; rewrite E; reflexivity | right; exact Hdx].
Qed.






Lemma base_item_points_rectangle : base_item_points = rectangle 4 1.
Proof.
  unfold base_item_points, rectangle.
  repeat (f_equal; try lra).
Qed.

(** ** Orientation of the ring of corners *)



(** ** Reflection *)

Lemma py_round_opp (x : R) : py_round (- x) = (- py_round x)%Z.
Proof.
  pose proof (Zfloor_bound x) as [Hlo Hhi].
  destruct (Req_dec_T x (IZR (Zfloor x))) as [E|N].
  - rewrite E, <- opp_IZR, !py_round_IZR. reflexivity.
  - assert (F : Zfloor (- x) = (- Zfloor x - 1)%Z).
    { apply Zfloor_eq. rewrite minus_IZR, opp_IZR. lra. }
    unfold py_round. rewrite F, minus_IZR, opp_IZR.
    assert (Ev : Z.even (- Zfloor x - 1) = negb (Z.even (Zfloor x))).
    { rewrite Z.even_sub, Z.even_opp. destruct (Z.even (Zfloor x)); reflexivity. }
    rewrite Ev.
    destruct (Rlt_dec (- x - (- IZR (Zfloor x) - 1)) (1 / 2)),
             (Rlt_dec (1 / 2) (- x - (- IZR (Zfloor x) - 1))),
             (Rlt_dec (x - IZR (Zfloor x)) (1 / 2)),
             (Rlt_dec (1 / 2) (x - IZR (Zfloor x)));
      try (exfalso; lra); try lia.
    destruct (Z.even (Zfloor x)); simpl; lia.
Qed.

Lemma dist_mirror_x (p q : point) : dist (mirror_x p) (mirror_x q) = dist p q.
Proof. unfold dist, mirror_x. cbn [fst snd]. f_equal. ring. Qed.

Lemma long_side_end_mirror_x (c0 c1 c3 : point) :
  long_side_end (mirror_x c0) (mirror_x c1) (mirror_x c3)
  = mirror_x (long_side_end c0 c1 c3).
Proof.
  unfold long_side_end. rewrite !dist_mirror_x.
  destruct (Rge_dec (dist c0 c1) (dist c0 c3)); reflexivity.
Qed.

Lemma angle_of_segment_mirror_x (p q : point) :
  angle_of_segment (mirror_x p) (mirror_x q)
  = restrict_0_to_180 (- angle_of_segment p q).
Proof.
  unfold angle_of_segment, mirror_x. cbn [fst snd].
  destruct (Rle_dec (Rabs (fst p - fst q)) VERTICAL_THRESHOLD) as [Hv|Hs].
  - rewrite restrict_0_to_180_mod. reflexivity.
  - replace ((- snd p - - snd q) / (fst p - fst q))
      with (- ((snd p - snd q) / (fst p - fst q)))
      by (unfold Rdiv; ring).
    rewrite atan_opp.
    replace (rad2deg (- atan ((snd p - snd q) / (fst p - fst q))))
      with (- rad2deg (atan ((snd p - snd q) / (fst p - fst q))))
      by (unfold rad2deg; ring).
    rewrite py_round_opp, !restrict_0_to_180_mod.
    set (m := py_round (rad2deg (atan ((snd p - snd q) / (fst p - fst q))))).
    change (- m)%Z with (0 - m)%Z. change (- (m mod 180))%Z with (0 - m mod 180)%Z.
    rewrite Zminus_mod_idemp_r. reflexivity.
Qed.

(** X11.  Reflecting every corner in the x axis leaves the dimensions as
    they are and turns the angle [a] into [restrict_0_to_180 (- a)], that is
    [180 - a] for [0 < a < 180] and 0 for 0; an input that raises keeps
    raising. *)
Theorem mirror_x_angle (box : list point) :
  get_mrr_angle_of_long_side (map mirror_x box)
  = (a <- get_mrr_angle_of_long_side box ;; ret (restrict_0_to_180 (- a))) /\
  get_mrr_dims (map mirror_x box) = get_mrr_dims box.
Proof.
  destruct box as [|c0 [|c1 [|c2 [|c3 tl]]]]; try (split; short_box).
  cbn [map].
  rewrite !get_mrr_angle_of_long_side_factor, !get_mrr_dims_factor.
  rewrite long_side_end_mirror_x, angle_of_segment_mirror_x, !dist_mirror_x.
  split; reflexivity.
Qed.

(** ** Short sides and coincident corners *)

Lemma x_span_le_dist (p q : point) : Rabs (fst p - fst q) <= dist p q.
Proof.
  unfold dist. rewrite <- sqrt_Rsqr_abs. apply sqrt_le_1_alt. unfold Rsqr.
  pose proof (Rle_0_sqr (snd p - snd q)) as H. unfold Rsqr in H. lra.
Qed.

(** X12.  The vertical threshold is an absolute length: when neither side
    at corner 0 is longer than the threshold, the angle returned is 90
    whatever the direction of the sides; in particular four coincident
    corners give 90 and not a division error. *)
Theorem short_sides_give_90 (c0 c1 c2 c3 : point) (tl : list point) :
  dist c0 c1 <= VERTICAL_THRESHOLD ->
  dist c0 c3 <= VERTICAL_THRESHOLD ->
  get_mrr_angle_of_long_side (c0 :: c1 :: c2 :: c3 :: tl) = inr 90%Z.
Proof.
  intros H1 H3. rewrite get_mrr_angle_of_long_side_factor.
  unfold ret. f_equal. apply angle_of_segment_vertical.
  pose proof (x_span_le_dist c0 (long_side_end c0 c1 c3)) as Hx.
  rewrite dist_long_side_end in Hx.
  unfold Rmax in Hx. destruct (Rle_dec (dist c0 c1) (dist c0 c3)); lra.
Qed.

Lemma short_sides_give_90_witness :
  dist (5, 7) (5, 7) <= VERTICAL_THRESHOLD /\
  get_mrr_angle_of_long_side [(5, 7); (5, 7); (5, 7); (5, 7)] = inr 90%Z.
Proof.
  assert (H : dist (5, 7) (5, 7) <= VERTICAL_THRESHOLD).
  { replace (dist (5, 7) (5, 7)) with 0 by (symmetry; dist_literal).
    unfold VERTICAL_THRESHOLD. lra. }
  split; [exact H|].
  exact (short_sides_give_90 (5, 7) (5, 7) (5, 7) (5, 7) [] H H).
Defined.

(** ** The quarter turn *)

Lemma rotate_deg_90 (p : point) : rotate_deg 90 p = (- snd p, fst p).
Proof.
  unfold rotate_deg. cbv zeta.
  replace (90 * (PI / 180)) with (PI / 2) by field.
  rewrite cos_PI2, sin_PI2. f_equal; ring.
Qed.

Lemma long_side_end_rotate_deg (theta : R) (c0 c1 c3 : point) :
  long_side_end (rotate_deg theta c0) (rotate_deg theta c1)
                (rotate_deg theta c3)
  = rotate_deg theta (long_side_end c0 c1 c3).
Proof.
  unfold long_side_end. rewrite !dist_rotate_deg.
  destruct (Rge_dec (dist c0 c1) (dist c0 c3)); reflexivity.
Qed.

Lemma atan_neg_inv (s : R) :
  s <> 0 ->
  rad2deg (atan (- / s)) = rad2deg (atan s) + IZR (-90) \/
  rad2deg (atan (- / s)) = rad2deg (atan s) + IZR 90.
Proof.
  intros Hs. pose proof PI_RGT_0 as Hpi. unfold rad2deg.
  destruct (Rlt_dec 0 s) as [Hpos|Hneg].
  - left. rewrite atan_opp, atan_inv by exact Hpos. field. lra.
  - right. assert (Hlt : 0 < - s) by lra.
    replace (- / s) with (/ - s) by (field; exact Hs).
    rewrite atan_inv by exact Hlt. rewrite atan_opp. field. lra.
Qed.

Lemma angle_of_segment_quarter_turn (p q : point) :
  Rabs (fst p - fst q) > VERTICAL_THRESHOLD ->
  Rabs (snd p - snd q) > VERTICAL_THRESHOLD ->
  angle_of_segment (rotate_deg 90 p) (rotate_deg 90 q)
  = restrict_0_to_180 (angle_of_segment p q + 90).
Proof.
  intros Hx Hy. rewrite !rotate_deg_90. unfold angle_of_segment. cbn [fst snd].
  replace (- snd p - - snd q) with (- (snd p - snd q)) by ring.
  rewrite Rabs_Ropp.
  set (dx := fst p - fst q) in *. set (dy := snd p - snd q) in *.
  destruct (Rle_dec (Rabs dy) VERTICAL_THRESHOLD) as [Hv|Hdy]; [lra|].
  destruct (Rle_dec (Rabs dx) VERTICAL_THRESHOLD) as [Hv|Hdx]; [lra|].
  apply above_threshold_nonzero in Hdx, Hdy.
  assert (Hs : dy / dx <> 0).
  { unfold Rdiv. apply Rmult_integral_contrapositive_currified;
      [exact Hdy | apply Rinv_neq_0_compat; exact Hdx]. }
  replace (dx / - dy) with (- / (dy / dx)) by (field; split; assumption).
  set (m := py_round (rad2deg (atan (dy / dx)))).
  rewrite !restrict_0_to_180_mod, Zplus_mod_idemp_l.
  destruct (atan_neg_inv (dy / dx) Hs) as [E|E]; rewrite E;
    rewrite py_round_add_even by reflexivity; fold m.
  - replace (m + -90)%Z with (m + 90 + (-1) * 180)%Z by ring.
    apply Z_mod_plus_full.
  - reflexivity.
Qed.

(** X13.  A quarter turn of the corners about the origin adds 90 degrees to
    the angle, folded into [0, 180), provided the long side spans more than
    the vertical threshold both in x and in y. *)
Theorem quarter_turn_angle (c0 c1 c2 c3 : point) (tl : list point) :
  let e := long_side_end c0 c1 c3 in
  Rabs (fst c0 - fst e) > VERTICAL_THRESHOLD ->
  Rabs (snd c0 - snd e) > VERTICAL_THRESHOLD ->
  get_mrr_angle_of_long_side (map (rotate_deg 90) (c0 :: c1 :: c2 :: c3 :: tl))
  = (a <- get_mrr_angle_of_long_side (c0 :: c1 :: c2 :: c3 :: tl) ;;
     ret (restrict_0_to_180 (a + 90))).
Proof.
  intros e Hx Hy. cbn [map]. rewrite !get_mrr_angle_of_long_side_factor.
  rewrite long_side_end_rotate_deg. fold e. cbn [bind ret].
  rewrite angle_of_segment_quarter_turn by assumption. reflexivity.
Qed.

Lemma quarter_turn_angle_witness :
  Rabs (fst (0, 0) - fst (long_side_end (0, 0) (8, 8) (-1, 1)))
  > VERTICAL_THRESHOLD /\
  get_mrr_angle_of_long_side
    (map (rotate_deg 90) [(0, 0); (8, 8); (7, 9); (-1, 1)])
  = (a <- get_mrr_angle_of_long_side [(0, 0); (8, 8); (7, 9); (-1, 1)] ;;
     ret (restrict_0_to_180 (a + 90))).
Proof.
  assert (E : long_side_end (0, 0) (8, 8) (-1, 1) = (8, 8)).
  { apply long_side_end_first. unfold dist. cbn [fst snd].
    apply Rle_ge, sqrt_le_1_alt. lra. }
  assert (Hx : Rabs (fst (0, 0) - fst (long_side_end (0, 0) (8, 8) (-1, 1)))
               > VERTICAL_THRESHOLD) by (rewrite E; rabs_literal).
  split; [exact Hx|].
  apply (quarter_turn_angle (0, 0) (8, 8) (7, 9) (-1, 1) [] Hx).
  rewrite E. rabs_literal.
Defined.

(** ** The two models of the angle function *)

(** X20.  On corners whose coordinates are at most 1e300 in magnitude no
    operation of [get_mrr_angle_of_long_side] overflows: the function with
    the overflow of binary64 returns what the function on exact reals
    returns. *)
Theorem models_agree_when_small (c0 c1 c2 c3 : point) (tl : list point) :
  small c0 -> small c1 -> small c3 ->
  get_mrr_angle_of_long_side_x (c0 :: c1 :: c2 :: c3 :: tl)
  = get_mrr_angle_of_long_side (c0 :: c1 :: c2 :: c3 :: tl).
Proof.
  intros H0 H1 H3.
  rewrite get_mrr_angle_of_long_side_x_factor,
    get_mrr_angle_of_long_side_factor.
  rewrite long_side_end_x_small by assumption.
  apply angle_of_segment_x_small; [exact H0|].
  unfold long_side_end. destruct (Rge_dec _ _); assumption.
Qed.

Lemma models_agree_when_small_witness :
  small (0, 0) /\ small (8, 0) /\ small (0, 2) /\
  get_mrr_angle_of_long_side_x [(0, 0); (8, 0); (8, 2); (0, 2)]
  = get_mrr_angle_of_long_side [(0, 0); (8, 0); (8, 2); (0, 2)].
Proof.
  destruct rectangle_8x2_small as (H0 & H1 & H3).
  split; [exact H0|]. split; [exact H1|]. split; [exact H3|].
  exact (models_agree_when_small (0, 0) (8, 0) (8, 2) (0, 2) [] H0 H1 H3).
Defined.

(** * The test module *)

(** ** Bookkeeping of [check_rotation] and the verdict of [check_test] *)

Lemma check_rotations_fields (runs : list (Z * Z)) (self : TestBoundingBox) :
  pass_angles (check_rotations runs self)
  = pass_angles self ++ map fst (filter matched runs) /\
  fail_angles (check_rotations runs self)
  = fail_angles self ++ map fst (filter (fun r => negb (matched r)) runs).
Proof.
  revert self. induction runs as [|[e a] runs IH]; intros self.
  - cbn. rewrite !app_nil_r. split; reflexivity.
  - unfold check_rotations in *. cbn [fold_left filter fst snd].
    destruct (IH (check_rotation e a self)) as [Hp Hf]. rewrite Hp, Hf.
    unfold check_rotation, matched. cbn [fst snd].
    destruct (Z.eqb e a); cbn [pass_angles fail_angles negb map fst];
      rewrite <- ?app_assoc; split; reflexivity.
Qed.

Lemma filter_all_length {A : Type} (f : A -> bool) (l : list A) :
  length (filter f l) = length l <-> (forall x, In x l -> f x = true).
Proof.
  induction l as [|x l IH]; cbn [filter length].
  - split; [intros _ y [] | reflexivity].
  - pose proof (filter_length_le f l) as Hle.
    destruct (f x) eqn:Hfx; cbn [length]; split.
    + intros Hlen y [<-|Hin]; [exact Hfx|]. apply IH; [lia | exact Hin].
    + intros Hall. f_equal. apply IH. intros y Hin. apply Hall. right. exact Hin.
    + intros Hlen. lia.
    + intros Hall. specialize (Hall x (or_introl eq_refl)). congruence.
Qed.

(** X14.  After [setUp], a series of [check_rotation] calls files every
    expected angle exactly once: the pass list holds the expected angles of
    the runs whose two angles are equal, the fail list those of the other
    runs, both in the order of the calls, so the two lengths add up to the
    number of runs. *)
Theorem check_rotation_bookkeeping (runs : list (Z * Z)) :
  let self := check_rotations runs setUp in
  pass_angles self = map fst (filter matched runs) /\
  fail_angles self = map fst (filter (fun r => negb (matched r)) runs) /\
  (length (pass_angles self) + length (fail_angles self))%nat = length runs.
Proof.
  intros self. unfold self.
  destruct (check_rotations_fields runs setUp) as [Hp Hf].
  cbn [setUp pass_angles fail_angles app] in Hp, Hf. rewrite Hp, Hf.
  split; [reflexivity|]. split; [reflexivity|].
  rewrite !length_map. clear. induction runs as [|r runs IH]; [reflexivity|].
  cbn [filter]. destruct (matched r); cbn [negb length]; lia.
Qed.

(** X15.  [check_test], called with the number of runs as the tests do,
    passes exactly when the computed angle equals the expected one in every
    run; one differing run makes it raise. *)
Theorem check_test_verdict (runs : list (Z * Z)) :
  check_test (length runs) (check_rotations runs setUp) = AssertionOk
  <-> (forall e a : Z, In (e, a) runs -> e = a).
Proof.
  unfold check_test.
  destruct (check_rotations_fields runs setUp) as [Hp _].
  cbn [setUp pass_angles app] in Hp. rewrite Hp, length_map.
  destruct (Nat.eqb_spec (length (filter matched runs)) (length runs)) as [E|N].
  - split; [|reflexivity]. intros _ e a Hin.
    apply (proj1 (filter_all_length matched runs) E) in Hin.
    apply Z.eqb_eq in Hin. exact Hin.
  - split; [discriminate|]. intros Hall. exfalso. apply N.
    apply filter_all_length. intros [e a] Hin. apply Z.eqb_eq.
    exact (Hall e a Hin).
Qed.

(** ** The segment and the label of [draw_angle_line] *)

Lemma dist_line_end (pt : point) (angle length : R) :
  dist pt (line_end pt angle length) = Rabs length.
Proof.
  unfold dist, line_end. cbn [fst snd].
  set (al := radians angle).
  assert (H : sin al * sin al + cos al * cos al = 1) by apply sin2_cos2.
  replace ((fst pt - (fst pt + length * cos al))
           * (fst pt - (fst pt + length * cos al))
           + (snd pt - (snd pt + length * sin al))
             * (snd pt - (snd pt + length * sin al)))
    with (Rsqr length).
  - apply sqrt_Rsqr_abs.
  - unfold Rsqr.
    transitivity (length * length * (sin al * sin al + cos al * cos al));
      [rewrite H|]; ring.
Qed.

(** X16.  [draw_angle_line] always plots one segment that starts at the
    given point and has length [abs length].  With a non-empty text it adds
    one black label, placed so that the point lies between the label and the
    end of the segment, half the length away from the point; with no text or
    an empty one it adds nothing. *)
Theorem draw_angle_line_geometry (pt : point) (angle length : R)
    (color : String.string) (text : option String.string) :
  let e := line_end pt angle length in
  dist pt e = Rabs length /\
  ((text = None \/ text = Some String.EmptyString) ->
   draw_angle_line pt angle length color text
   = [Plot (fst pt, fst e) (snd pt, snd e) color]) /\
  (forall s : String.string,
      text = Some s -> s <> String.EmptyString ->
      exists t : point,
        draw_angle_line pt angle length color text
        = [Plot (fst pt, fst e) (snd pt, snd e) color;
           Text (fst t) (snd t) s "black"%string] /\
        fst pt - fst t = (fst e - fst pt) / 2 /\
        snd pt - snd t = (snd e - snd pt) / 2 /\
        dist pt t = Rabs length / 2).
Proof.
  intros e. split; [apply dist_line_end|]. split.
  - intros [->| ->]; reflexivity.
  - intros s -> Hs. destruct s as [|c s]; [contradiction|].
    exists (line_end pt angle (- (length / 2))).
    unfold draw_angle_line, e, line_end. cbn [fst snd].
    split; [|split; [|split]].
    + replace (fst pt + - (length / 2) * cos (radians angle))
        with (fst pt - length / 2 * cos (radians angle)) by ring.
      replace (snd pt + - (length / 2) * sin (radians angle))
        with (snd pt - length / 2 * sin (radians angle)) by ring.
      reflexivity.
    + field.
    + field.
    + change (dist pt (line_end pt angle (- (length / 2))) = Rabs length / 2).
      rewrite dist_line_end, Rabs_Ropp. unfold Rdiv.
      rewrite Rabs_mult, (Rabs_pos_eq (/ 2)) by lra. reflexivity.
Qed.

Lemma draw_angle_line_geometry_witness :
  draw_angle_line (0, 0) 0 4 "white"%string (Some "60"%string)
  = [Plot (0, 0 + 4 * cos (radians 0)) (0, 0 + 4 * sin (radians 0))
          "white"%string;
     Text (0 - 4 / 2 * cos (radians 0)) (0 - 4 / 2 * sin (radians 0))
          "60"%string "black"%string] /\
  draw_angle_line (0, 0) 0 4 "white"%string (Some ""%string)
  = [Plot (0, 0 + 4 * cos (radians 0)) (0, 0 + 4 * sin (radians 0))
          "white"%string].
Proof.
  split.
  - reflexivity.
  - refine (proj1 (proj2 (draw_angle_line_geometry (0, 0) 0 4 "white"%string
                            (Some ""%string))) _).
    right. reflexivity.
Defined.

(** X17.  The calculator measures the segment that [draw_angle_line] plots
    at a whole number [theta] of degrees, [0 <= theta < 180], as [theta]:
    on every box whose corner 0 is the starting point, whose corner 1 is the
    end of the segment and whose other side is not longer, the angle returned
    is [theta], provided [theta] is 90 or the segment spans more than the
    vertical threshold in x. *)
Theorem drawn_line_measured (pt c2 c3 : point) (tl : list point)
    (theta : Z) (length : R) :
  (0 <= theta < 180)%Z ->
  dist pt c3 <= Rabs length ->
  theta = 90%Z \/
  Rabs length * Rabs (cos (radians (IZR theta))) > VERTICAL_THRESHOLD ->
  get_mrr_angle_of_long_side
    (pt :: line_end pt (IZR theta) length :: c2 :: c3 :: tl)
  = inr theta.
Proof.
  intros Hth Hside Hdx. rewrite get_mrr_angle_of_long_side_factor.
  rewrite long_side_end_first by (rewrite dist_line_end; lra).
  unfold ret. f_equal.
  apply (angle_of_segment_direction _ _ length theta).
  - unfold line_end, radians. cbn [fst snd]. ring.
  - unfold line_end, radians. cbn [fst snd]. ring.
  - exact Hth.
  - exact Hdx.
Qed.

Lemma drawn_line_measured_witness :
  (0 <= 120 < 180)%Z /\
  dist (0, 0) (0, 0) <= Rabs 4 /\
  get_mrr_angle_of_long_side
    [(0, 0); line_end (0, 0) 120 4; (0, 0); (0, 0)] = inr 120%Z.
Proof.
  assert (Hth : (0 <= 120 < 180)%Z) by lia.
  assert (Hside : dist (0, 0) (0, 0) <= Rabs 4).
  { replace (dist (0, 0) (0, 0)) with 0 by (symmetry; dist_literal).
    apply Rabs_pos. }
  split; [exact Hth|]. split; [exact Hside|].
  apply (drawn_line_measured (0, 0) (0, 0) (0, 0) [] 120 4 Hth Hside).
  right. unfold radians.
  replace (120 * (PI / 180)) with (2 * (PI / 3)) by field.
  rewrite cos_2PI3. rabs_literal.
Defined.

(** ** Placement of a new shape in [generate_shape] *)

Section PlacementFacts.

Variable Shape : Type.
Variable intersects : Shape -> Shape -> bool.
Variable translate_shape : Shape -> Z -> Z -> Shape.
Variable offsets : nat -> Z * Z.

Let overlap := check_shape_overlap Shape intersects.
Let loop := place_loop Shape intersects translate_shape offsets.

Lemma place_loop_bounds (shapes : list Shape) (shape : Shape)
    (shape_hit : bool) (try_count : nat) :
  let r := loop shapes shape shape_hit try_count in
  (try_count <= snd r <= Nat.max (S try_count) 5)%nat /\
  (shape_hit = false -> r = (shape, try_count)) /\
  (shape_hit = overlap shapes shape ->
   (snd r < 5)%nat -> overlap shapes (fst r) = false).
Proof.
  unfold loop, overlap.
  funelim (place_loop Shape intersects translate_shape offsets
             shapes shape shape_hit try_count); cbn zeta.
  - cbn [fst snd]. split; [lia|]. split; [reflexivity|].
    intros Hhit _. symmetry. exact Hhit.
  - cbn [fst snd]. split; [lia|]. split; [discriminate|]. intros _ Hlt. lia.
  - destruct H as (Hb & _ & Hfree). split; [lia|]. split; [discriminate|].
    intros _ Hlt. apply Hfree; [reflexivity | exact Hlt].
Qed.

Lemma place_loop_gives_up (shapes : list Shape) (shape : Shape)
    (shape_hit : bool) (try_count : nat) :
  (forall s : Shape, overlap shapes s = true) ->
  shape_hit = true -> (try_count < 5)%nat ->
  snd (loop shapes shape shape_hit try_count) = 5%nat.
Proof.
  unfold loop, overlap. intros Hall.
  funelim (place_loop Shape intersects translate_shape offsets
             shapes shape shape_hit try_count); intros Hhit Hlt.
  - discriminate.
  - cbn [snd]. lia.
  - apply H; [exact Hall | apply Hall | lia].
Qed.

(** X18.  The placement loop of [generate_shape] stops after at most five
    translations, whatever the shapes and the random offsets are.  A shape
    that is free where it stands is returned as it is; a shape returned after
    fewer than five translations overlaps no stored shape; when every
    position overlaps, exactly five translations are made and the shape is
    returned all the same.  The returned shape is stored at the end of
    [self.shapes]. *)
Theorem placement_stops_within_five (shapes : list Shape) (shape : Shape) :
  let r := place_loop Shape intersects translate_shape offsets shapes shape
             (check_shape_overlap Shape intersects shapes shape) 0 in
  (snd r <= 5)%nat /\
  (check_shape_overlap Shape intersects shapes shape = false ->
   r = (shape, 0%nat)) /\
  ((snd r < 5)%nat ->
   check_shape_overlap Shape intersects shapes (fst r) = false) /\
  ((forall s : Shape, check_shape_overlap Shape intersects shapes s = true) ->
   snd r = 5%nat) /\
  place_shape Shape intersects translate_shape offsets shapes shape
  = (shapes ++ [fst r], fst r).
Proof.
  intros r.
  pose proof (place_loop_bounds shapes shape (overlap shapes shape) 0) as H.
  cbv zeta in H. unfold loop, overlap in H. fold r in H.
  destruct H as (Hb & Hfree & Hok).
  change (Nat.max 1 5) with 5%nat in Hb.
  split; [lia|]. split; [exact Hfree|].
  split; [exact (Hok eq_refl)|]. split; [|reflexivity].
  intros Hall. unfold r.
  apply place_loop_gives_up; [exact Hall | apply Hall | lia].
Qed.

(** X19.  [check_shape_overlap] answers true exactly when the new shape
    intersects one of the stored shapes; with no stored shape it answers
    false. *)
Theorem check_shape_overlap_iff (shapes : list Shape) (shape : Shape) :
  check_shape_overlap Shape intersects shapes shape = true
  <-> (exists test_shape : Shape,
          In test_shape shapes /\ intersects shape test_shape = true).
Proof.
  induction shapes as [|t rest IH]; cbn [check_shape_overlap].
  - split; [discriminate | intros (t & [] & _)].
  - destruct (intersects shape t) eqn:Hhit.
    + split; [|reflexivity]. intros _. exists t. split; [left; reflexivity|].
      exact Hhit.
    + rewrite IH. split.
      * intros (u & Hin & Hu). exists u. split; [right; exact Hin | exact Hu].
      * intros (u & [<-|Hin] & Hu); [congruence|]. exists u. split; assumption.
Qed.

End PlacementFacts.

Lemma placement_stops_within_five_witness :
  let r := place_loop Z Z.eqb (fun s x _ => (s + x)%Z) (fun _ => (1, 0)%Z)
             [0; 1]%Z 0%Z
             (check_shape_overlap Z Z.eqb [0; 1]%Z 0%Z) 0 in
  r = (2%Z, 2%nat) /\
  check_shape_overlap Z Z.eqb [0; 1]%Z (fst r) = false.
Proof.
  intros r.
  assert (E : r = (2%Z, 2%nat)) by (unfold r; simp place_loop; reflexivity).
  split; [exact E|].
  apply (placement_stops_within_five Z Z.eqb (fun s x _ => (s + x)%Z)
           (fun _ => (1, 0)%Z) [0; 1]%Z 0%Z).
  fold r. rewrite E. cbn. lia.
Defined.
